(** * Checkpoint manager of the polybft consensus package

    A shallow embedding of [consensus/polybft/checkpoint_manager.go]:
    checkpoint submission with catch-up over missed epoch-ending blocks,
    the block-finalization hook [PostBlock], event-root construction and
    exit-proof generation, together with the properties the specification
    states about them.

    Unsigned 64-bit integers are integers in [Z] with the wrap-around of
    Go's arithmetic written out ([U64]); byte slices are lists of bytes;
    a Go [error] is identified with its message.  Collaborators that the
    manager reaches through interfaces (blockchain backend, consensus
    backend, root-chain relayer, exit event store, events getter) are the
    operations of a type class over an abstract world state, so the
    theorems about the manager hold for every implementation of them.
    The exit event store is not part of the file; where a property
    depends on what the store does, the store is the in-memory one that
    follows the specification ([InMemory]). *)

From Stdlib Require Import ZArith List String Bool Lia.
From Stdlib.Strings Require Import Byte.
From Stdlib Require Import Permutation Sorted DecimalString.
Import ListNotations.

Local Open Scope string_scope.
Local Open Scope Z_scope.

(** ** Machine integers, byte slices, errors *)

Module U64.
Definition modulus : Z := 2 ^ 64.
Definition max : Z := modulus - 1.
Definition wrap (z : Z) : Z := z mod modulus.
Definition add (a b : Z) : Z := wrap (a + b).
Definition incr (a : Z) : Z := add a 1.
End U64.

Definition bytes := list byte.

Definition bytes_eq_dec : forall a b : bytes, {a = b} + {a <> b} :=
  list_eq_dec Byte.byte_eq_dec.

(** [bytes.Equal] *)
Definition bytes_Equal (a b : bytes) : bool :=
  if bytes_eq_dec a b then true else false.

(** A Go [error] value, identified with the text [Error()] returns. *)
Definition error := string.

(** The [%d] verb of [fmt] on an unsigned integer. *)
Definition fmt_d (z : Z) : string :=
  NilZero.string_of_uint (N.to_uint (Z.to_N z)).

(** A Go [(value, error)] return. *)
Inductive goret (A : Type) : Type :=
| Val (a : A)
| Fail (e : error).
Arguments Val {A} a.
Arguments Fail {A} e.

(** A value of type [interface{}] as the ABI decoder produces it. *)
Inductive GoValue : Type :=
| VBool (b : bool)
| VBigInt (z : Z)
| VMap (m : GoMap)
| VOther
with GoMap : Type :=
| MapNil
| MapCons (k : string) (v : GoValue) (m : GoMap).

(** Lookup in a [map[string]interface{}]. *)
Fixpoint map_lookup (k : string) (m : GoMap) : option GoValue :=
  match m with
  | MapNil => None
  | MapCons k' v m' => if String.eqb k k' then Some v else map_lookup k m'
  end.

(** [Uint64] of a [big.Int]: the low 64 bits of a non-negative integer. *)
Definition BigInt_Uint64 (z : Z) : Z := U64.wrap z.

(** ** Data model *)

Module types.
Definition Hash := bytes.
Definition Address := bytes.

Definition ZeroHash : Hash := repeat x00 32.

Record Header := mkHeader {
  Number : Z;
  HeaderHash : Hash;
  ExtraData : bytes;
  Miner : bytes
}.

End types.

Module contractsapi.
Record L2StateSyncedEvent := mkL2StateSyncedEvent {
  ID : Z;
  Payload : bytes
}.

Record SlashedEvent := mkSlashedEvent {
  ExitID : Z
}.

Record CheckpointMetadata := mkCheckpointMetadata {
  BlockHash : types.Hash;
  BlockRound : Z;
  CurrentValidatorSetHash : types.Hash
}.

Record Checkpoint := mkCheckpoint {
  Epoch : Z;
  BlockNumber : Z;
  EventRoot : types.Hash
}.
End contractsapi.

(** Header consensus metadata ([Extra]), as far as the manager reads it. *)
Module Extra.
Record CheckpointData := mkCheckpointData {
  BlockRound : Z;
  EpochNumber : Z;
  CurrentValidatorsHash : types.Hash;
  EventRoot : types.Hash
}.

Record Signature := mkSignature {
  AggregatedSignature : bytes;
  Bitmap : bytes
}.

(** [Validators] is the validator-set delta, present ([Some]) exactly on
    epoch-ending blocks; its content is not read here. *)
Record t := mk {
  Validators : option bytes;
  Committed : Signature;
  Checkpoint : CheckpointData
}.
End Extra.

(** An exit event: the decoded [L2StateSyncedEvent] with the epoch and
    the block it is attributed to. *)
Record ExitEvent := mkExitEvent {
  L2StateSyncedEvent : contractsapi.L2StateSyncedEvent;
  EpochNumber : Z;
  BlockNumber : Z
}.

Definition ExitEvent_ID (e : ExitEvent) : Z :=
  contractsapi.ID (L2StateSyncedEvent e).

(** The order of [ID.Cmp] on exit events. *)
Definition ID_lt (a b : ExitEvent) : Prop := ExitEvent_ID a < ExitEvent_ID b.
Definition ID_le (a b : ExitEvent) : Prop := ExitEvent_ID a <= ExitEvent_ID b.

(** A decoded event, [contractsapi.EventAbi]: the two dynamic types
    [PostBlock] switches on, and anything else (a nil value included). *)
Inductive EventAbi : Type :=
| EvExit (e : ExitEvent)
| EvSlashed (e : contractsapi.SlashedEvent)
| EvNone.

Module Proof.
Inductive MetaValue : Type :=
| MLeafIndex (i : Z)
| MExitEvent (e : ExitEvent)
| MCheckpointBlock (z : Z).

Record t := mk {
  Data : list types.Hash;
  Metadata : list (string * MetaValue)
}.

(** [types.Proof{}] *)
Definition empty : t := mk [] [].
End Proof.

Module validator.
(** A validator's metadata; its content is opaque to the manager. *)
Definition ValidatorMetadata : Type := bytes.
Definition AccountSet : Type := list ValidatorMetadata.
End validator.

Module ethgo.
Record Key := mkKey {
  KeyAddress : types.Address
}.

Inductive TransactionType : Type :=
| TransactionLegacy
| TransactionDynamicFee.

Record Transaction := mkTransaction {
  To : types.Address;
  Input : bytes;
  TxType : TransactionType
}.

Record Receipt := mkReceipt {
  Status : Z;
  GasUsed : Z
}.

Record Log := mkLog {
  LogAddress : types.Address;
  Topics : list types.Hash;
  LogData : bytes
}.

Definition ZeroAddress : types.Address := repeat x00 20.
End ethgo.

(** [contractsapi.SubmitCheckpointManagerFn], the payload of one
    checkpoint submission. *)
Record SubmitCheckpointManagerFn := mkSubmit {
  CheckpointMetadata : contractsapi.CheckpointMetadata;
  Checkpoint : contractsapi.Checkpoint;
  Signature : Z * Z;
  Bitmap : bytes;
  NewValidatorSet : list bytes
}.

Record Block := mkBlock {
  Header : types.Header
}.

(** [Block.Number()] *)
Definition Block_Number (b : Block) : Z := types.Number (Header b).

Record FullBlock := mkFullBlock {
  FullBlock_Block : Block
}.

Record PostBlockRequest := mkPostBlockRequest {
  ReqFullBlock : FullBlock;
  ReqEpoch : Z;
  IsEpochEndingBlock : bool;
  CheckpointInterval : Z
}.

(** ** Collaborators *)

(** Pure functions of other packages that the manager calls: header-extra
    decoding, BLS signature conversion, ABI encoding and decoding, number
    parsing, the Merkle tree library and log decoding.  They are
    parameters of the development. *)
Class Codec := {
  GetIbftExtra : bytes -> goret Extra.t;
  BlsSignature : Type;
  UnmarshalSignature : bytes -> goret BlsSignature;
  ToBigInt : BlsSignature -> goret (Z * Z);
  ToAPIBinding : validator.AccountSet -> list bytes;
  SubmitCheckpoint_EncodeAbi : SubmitCheckpointManagerFn -> goret bytes;
  currentCheckpointBlockNum_Encode : goret bytes;
  ParseUint : string -> goret Z;
  ReceiptFailed : Z;
  GetCheckpointBlock_EncodeAbi : Z -> goret bytes;
  DecodeHex : string -> goret bytes;
  GetCheckpointBlockABIResponse_Decode : bytes -> goret GoValue;
  L2StateSyncedEvent_Encode : contractsapi.L2StateSyncedEvent -> goret bytes;
  L2StateSyncedEvent_ParseLog : ethgo.Log -> goret contractsapi.L2StateSyncedEvent;
  MerkleTree : Type;
  NewMerkleTree : list bytes -> goret MerkleTree;
  MerkleTree_Hash : MerkleTree -> types.Hash;
  MerkleTree_LeafIndex : MerkleTree -> bytes -> goret Z;
  MerkleTree_GenerateProof : MerkleTree -> bytes -> goret (list types.Hash);
  ExitEvent_Sig : types.Hash;
  SlashedEvent_Sig : types.Hash;
  SlashedEvent_ParseLog : ethgo.Log -> contractsapi.SlashedEvent * bool * option error
}.

(** The stateful collaborators, over a world state [W] that stands for
    the local chain, the root chain, the consensus backend and the
    bolt store together.  Every operation may change the world and
    returns what its Go signature returns. *)
Class Backend (W : Type) := {
  (* blockchainBackend *)
  GetHeaderByNumber : Z -> W -> W * option types.Header;
  (* polybftBackend *)
  GetValidators : Z -> W -> W * goret validator.AccountSet;
  (* txrelayer.TxRelayer *)
  Call : types.Address -> types.Address -> bytes -> W -> W * goret string;
  SendTransaction : ethgo.Transaction -> ethgo.Key -> W -> W * goret ethgo.Receipt;
  (* ExitEventStore *)
  getLastSaved : W -> W * goret Z;
  updateLastSaved : Z -> W -> W * option error;
  insertExitEvents : list ExitEvent -> W -> W * option error;
  removeSlashExitEvents : list Z -> W -> W * option error;
  getExitEventsByEpoch : Z -> W -> W * goret (list ExitEvent);
  getExitEventsForProof : Z -> Z -> W -> W * goret (list ExitEvent);
  getExitEvent : Z -> W -> W * goret ExitEvent;
  getPendingSlashExitIDs : W -> W * goret (list Z);
  (* eventsGetter *)
  getFromBlocks : Z -> FullBlock -> W -> W * goret (list EventAbi)
}.

(** ** Outcomes, the call log and the manager monad *)

(** How a call ends.  [Err e] is a return with the non-nil error [e]
    (and the zero value of the result type, as every error return of the
    source has it); [Panic] is a run-time panic; [OutOfFuel] cuts off a
    loop that has not finished within the given number of iterations. *)
Inductive result (A : Type) : Type :=
| Ok (a : A)
| Err (e : error)
| Panic
| OutOfFuel.
Arguments Ok {A} a.
Arguments Err {A} e.
Arguments Panic {A}.
Arguments OutOfFuel {A}.

(** The collaborator operations, as labels of the call log. *)
Inductive Op : Type :=
| OpGetHeaderByNumber (n : Z)
| OpGetValidators (n : Z)
| OpCall (from to : types.Address) (input : bytes)
| OpSendTransaction (txn : ethgo.Transaction) (k : ethgo.Key)
| OpGetLastSaved
| OpUpdateLastSaved (block : Z)
| OpInsertExitEvents (events : list ExitEvent)
| OpRemoveSlashExitEvents (ids : list Z)
| OpGetExitEventsByEpoch (epoch : Z)
| OpGetExitEventsForProof (epoch block : Z)
| OpGetExitEvent (id : Z)
| OpGetPendingSlashExitIDs
| OpGetFromBlocks (lastBlock : Z) (b : FullBlock).

(** One entry of the call log: the operation and the error it returned,
    if any. *)
Definition Called : Type := Op * option error.

(** The fields of the [checkpointManager] struct that are data. *)
Record checkpointManager := mkCheckpointManager {
  key : ethgo.Key;
  checkpointManagerAddr : types.Address;
  lastSentBlock : Z
}.

(** A goroutine started by [PostBlock]: the arguments of the pending
    [submitCheckpoint] call and the epoch number kept for the log. *)
Record Goroutine := mkGoroutine {
  goHeader : types.Header;
  goIsEndOfEpoch : bool;
  goEpochNumber : Z
}.

(** The state a call runs in: the manager, the goroutines started so
    far, the log of collaborator calls made so far (oldest first) and the
    world of the collaborators. *)
Record Machine (W : Type) := mkMachine {
  cm : checkpointManager;
  goroutines : list Goroutine;
  trace : list Called;
  world : W
}.
Arguments mkMachine {W} cm goroutines trace world.
Arguments cm {W} m.
Arguments goroutines {W} m.
Arguments trace {W} m.
Arguments world {W} m.

Definition M (W A : Type) : Type := Machine W -> Machine W * result A.

Definition ret {W A} (a : A) : M W A := fun m => (m, Ok a).

Definition bind {W A B} (c : M W A) (k : A -> M W B) : M W B :=
  fun m =>
    match c m with
    | (m', Ok a) => k a m'
    | (m', Err e) => (m', Err e)
    | (m', Panic) => (m', Panic)
    | (m', OutOfFuel) => (m', OutOfFuel)
    end.

Definition fail {W A} (e : error) : M W A := fun m => (m, Err e).
Definition panic {W A} : M W A := fun m => (m, Panic).
Definition out_of_fuel {W A} : M W A := fun m => (m, OutOfFuel).

Declare Scope go_scope.
Delimit Scope go_scope with go.
Notation "x <- c ;; k" := (bind c (fun x => k))
  (at level 61, c at next level, right associativity) : go_scope.
Notation "c ;;; k" := (bind c (fun _ => k))
  (at level 61, right associativity) : go_scope.
Local Open Scope go_scope.

(** A pure [(value, error)] computation. *)
Definition pure {W A} (r : goret A) : M W A :=
  fun m => match r with Val a => (m, Ok a) | Fail e => (m, Err e) end.

(** The machine after a collaborator call: the new world, and the call
    appended to the log. *)
Definition logged {W} (m : Machine W) (w : W) (o : Op) (e : option error)
    : Machine W :=
  mkMachine (cm m) (goroutines m) (trace m ++ [(o, e)])%list w.

(** A collaborator call that cannot fail. *)
Definition call_total {W A} (o : Op) (op : W -> W * A) : M W A :=
  fun m => let (w', a) := op (world m) in (logged m w' o None, Ok a).

(** A collaborator call returning [(value, error)]. *)
Definition call {W A} (o : Op) (op : W -> W * goret A) : M W A :=
  fun m =>
    match op (world m) with
    | (w', Val a) => (logged m w' o None, Ok a)
    | (w', Fail e) => (logged m w' o (Some e), Err e)
    end.

(** A collaborator call returning only an [error]. *)
Definition call_err {W} (o : Op) (op : W -> W * option error) : M W unit :=
  fun m =>
    match op (world m) with
    | (w', None) => (logged m w' o None, Ok tt)
    | (w', Some e) => (logged m w' o (Some e), Err e)
    end.

(** [if err != nil { return fmt.Errorf(..., err) }] around a call. *)
Definition wrap_err {W A} (f : error -> error) (c : M W A) : M W A :=
  fun m =>
    match c m with
    | (m', Err e) => (m', Err (f e))
    | r => r
    end.

(** Running a call and inspecting its error instead of returning it. *)
Definition attempt {W A} (c : M W A) : M W (goret A) :=
  fun m =>
    match c m with
    | (m', Ok a) => (m', Ok (Val a))
    | (m', Err e) => (m', Ok (Fail e))
    | (m', Panic) => (m', Panic)
    | (m', OutOfFuel) => (m', OutOfFuel)
    end.

Definition get_cm {W} : M W checkpointManager := fun m => (m, Ok (cm m)).

Definition set_lastSentBlock {W} (b : Z) : M W unit :=
  fun m =>
    (mkMachine
       (mkCheckpointManager (key (cm m)) (checkpointManagerAddr (cm m)) b)
       (goroutines m) (trace m) (world m), Ok tt).

(** The [go] statement: the call is recorded as started, not run. *)
Definition go {W} (g : Goroutine) : M W unit :=
  fun m => (mkMachine (cm m) (goroutines m ++ [g])%list (trace m) (world m), Ok tt).

(** The collaborators as the manager calls them. *)
Section Calls.
Context {W : Type} {backend : Backend W}.

Definition blockchain_GetHeaderByNumber (n : Z) : M W (option types.Header) :=
  call_total (OpGetHeaderByNumber n) (GetHeaderByNumber n).

Definition consensusBackend_GetValidators (n : Z) : M W validator.AccountSet :=
  call (OpGetValidators n) (GetValidators n).

Definition rootChainRelayer_Call (from to : types.Address) (input : bytes)
    : M W string :=
  call (OpCall from to input) (Call from to input).

Definition rootChainRelayer_SendTransaction (txn : ethgo.Transaction)
    (k : ethgo.Key) : M W ethgo.Receipt :=
  call (OpSendTransaction txn k) (SendTransaction txn k).

Definition store_getLastSaved : M W Z :=
  call OpGetLastSaved getLastSaved.

Definition store_updateLastSaved (block : Z) : M W unit :=
  call_err (OpUpdateLastSaved block) (updateLastSaved block).

Definition store_insertExitEvents (events : list ExitEvent) : M W unit :=
  call_err (OpInsertExitEvents events) (insertExitEvents events).

Definition store_removeSlashExitEvents (ids : list Z) : M W unit :=
  call_err (OpRemoveSlashExitEvents ids) (removeSlashExitEvents ids).

Definition store_getExitEventsByEpoch (epoch : Z) : M W (list ExitEvent) :=
  call (OpGetExitEventsByEpoch epoch) (getExitEventsByEpoch epoch).

Definition store_getExitEventsForProof (epoch block : Z) : M W (list ExitEvent) :=
  call (OpGetExitEventsForProof epoch block) (getExitEventsForProof epoch block).

Definition store_getExitEvent (id : Z) : M W ExitEvent :=
  call (OpGetExitEvent id) (getExitEvent id).

Definition store_getPendingSlashExitIDs : M W (list Z) :=
  call OpGetPendingSlashExitIDs getPendingSlashExitIDs.

Definition eventsGetter_getFromBlocks (lastBlock : Z) (b : FullBlock)
    : M W (list EventAbi) :=
  call (OpGetFromBlocks lastBlock b) (getFromBlocks lastBlock b).

(** The world after one collaborator operation. *)
Definition perform (o : Op) (w : W) : W :=
  match o with
  | OpGetHeaderByNumber n => fst (GetHeaderByNumber n w)
  | OpGetValidators n => fst (GetValidators n w)
  | OpCall from to input => fst (Call from to input w)
  | OpSendTransaction txn k => fst (SendTransaction txn k w)
  | OpGetLastSaved => fst (getLastSaved w)
  | OpUpdateLastSaved block => fst (updateLastSaved block w)
  | OpInsertExitEvents events => fst (insertExitEvents events w)
  | OpRemoveSlashExitEvents ids => fst (removeSlashExitEvents ids w)
  | OpGetExitEventsByEpoch epoch => fst (getExitEventsByEpoch epoch w)
  | OpGetExitEventsForProof epoch block => fst (getExitEventsForProof epoch block w)
  | OpGetExitEvent id => fst (getExitEvent id w)
  | OpGetPendingSlashExitIDs => fst (getPendingSlashExitIDs w)
  | OpGetFromBlocks lastBlock b => fst (getFromBlocks lastBlock b w)
  end.

(** The worlds that collaborator operations lead to from [w0]. *)
Inductive reachable (w0 : W) : W -> Prop :=
| reachable_refl : reachable w0 w0
| reachable_step w o : reachable w0 w -> reachable w0 (perform o w).

(** A computation that leads from worlds reachable from [w0] to such
    worlds only. *)
Definition moves (w0 : W) {A} (c : M W A) : Prop :=
  forall m m' r, c m = (m', r) -> reachable w0 (world m) -> reachable w0 (world m').

End Calls.

(** The transactions sent and the validator sets fetched, in a stretch
    of the call log. *)
Definition sentTransactions (t : list Called) : list ethgo.Transaction :=
  flat_map (fun c => match fst c with
                     | OpSendTransaction txn _ => [txn]
                     | _ => []
                     end) t.

Definition fetchedValidators (t : list Called) : list Z :=
  flat_map (fun c => match fst c with
                     | OpGetValidators n => [n]
                     | _ => []
                     end) t.

(** ** The checkpoint manager *)

Section Manager.
Context {codec : Codec} {W : Type} {backend : Backend W}.

(** [getLatestCheckpointBlock] queries the CheckpointManager contract for
    the latest checkpoint block number. *)
Definition getLatestCheckpointBlock : M W Z :=
  checkpointBlockNumMethodEncoded <-
    wrap_err (fun e => "failed to encode currentCheckpointId function parameters: " ++ e)
      (pure currentCheckpointBlockNum_Encode) ;;
  c <- get_cm ;;
  latestCheckpointBlockRaw <-
    wrap_err (fun e => "failed to invoke currentCheckpointId function on the rootchain: " ++ e)
      (rootChainRelayer_Call (ethgo.KeyAddress (key c)) (checkpointManagerAddr c)
         checkpointBlockNumMethodEncoded) ;;
  wrap_err (fun e => "failed to convert current checkpoint id '"
                       ++ latestCheckpointBlockRaw ++ "' to number: " ++ e)
    (pure (ParseUint latestCheckpointBlockRaw)).

(** The [SubmitCheckpointManagerFn] value that [abiEncodeCheckpointBlock]
    builds. *)
Definition submitFn (blockNumber : Z) (blockHash : types.Hash) (extra : Extra.t)
    (encodedAggSigs : Z * Z) (nextValidators : validator.AccountSet)
    : SubmitCheckpointManagerFn :=
  mkSubmit
    (contractsapi.mkCheckpointMetadata
       blockHash
       (Extra.BlockRound (Extra.Checkpoint extra))
       (Extra.CurrentValidatorsHash (Extra.Checkpoint extra)))
    (contractsapi.mkCheckpoint
       (Extra.EpochNumber (Extra.Checkpoint extra))
       blockNumber
       (Extra.EventRoot (Extra.Checkpoint extra)))
    encodedAggSigs
    (Extra.Bitmap (Extra.Committed extra))
    (ToAPIBinding nextValidators).

(** [abiEncodeCheckpointBlock] *)
Definition abiEncodeCheckpointBlock (blockNumber : Z) (blockHash : types.Hash)
    (extra : Extra.t) (nextValidators : validator.AccountSet) : goret bytes :=
  match UnmarshalSignature (Extra.AggregatedSignature (Extra.Committed extra)) with
  | Fail e => Fail e
  | Val aggs =>
      match ToBigInt aggs with
      | Fail e => Fail e
      | Val encodedAggSigs =>
          SubmitCheckpoint_EncodeAbi
            (submitFn blockNumber blockHash extra encodedAggSigs nextValidators)
      end
  end.

(** [encodeAndSendCheckpoint] encodes the checkpoint of one block and
    sends it to the root chain. *)
Definition encodeAndSendCheckpoint (header : types.Header) (extra : Extra.t)
    (isEndOfEpoch : bool) : M W unit :=
  c <- get_cm ;;
  nextEpochValidators <-
    (if isEndOfEpoch
     then consensusBackend_GetValidators (types.Number header)
     else ret []) ;;
  input <-
    wrap_err (fun e => "failed to encode checkpoint data to ABI for block "
                         ++ fmt_d (types.Number header) ++ ": " ++ e)
      (pure (abiEncodeCheckpointBlock (types.Number header)
               (types.HeaderHash header) extra nextEpochValidators)) ;;
  receipt <-
    rootChainRelayer_SendTransaction
      (ethgo.mkTransaction (checkpointManagerAddr c) input
         ethgo.TransactionDynamicFee)
      (key c) ;;
  if ethgo.Status receipt =? ReceiptFailed
  then fail ("checkpoint submission transaction failed for block "
               ++ fmt_d (types.Number header))
  else ret tt.

(** The transaction [encodeAndSendCheckpoint] sends for a header, given
    the encoding [enc] of the payload, the converted signature and the
    next validator set. *)
Definition checkpointTxn (c : checkpointManager)
    (enc : SubmitCheckpointManagerFn -> bytes) (header : types.Header)
    (extra : Extra.t) (encodedAggSigs : Z * Z)
    (nextValidators : validator.AccountSet) : ethgo.Transaction :=
  ethgo.mkTransaction (checkpointManagerAddr c)
    (enc (submitFn (types.Number header) (types.HeaderHash header) extra
            encodedAggSigs nextValidators))
    ethgo.TransactionDynamicFee.

(** The catch-up loop of [submitCheckpoint], from [blockNumber] on.  It
    returns the last value of [currentExtra].  A nil [parentExtra] or
    [parentHeader] that is dereferenced is a panic. *)
Fixpoint catchUp (fuel : nat) (latestHeader : types.Header) (blockNumber : Z)
    (parentHeader : option types.Header) (parentExtra currentExtra : option Extra.t)
    : M W (option Extra.t) :=
  if blockNumber <=? types.Number latestHeader then
    match fuel with
    | O => out_of_fuel
    | S fuel' =>
        found <- blockchain_GetHeaderByNumber blockNumber ;;
        match found with
        | None => fail ("block " ++ fmt_d blockNumber ++ " was not found")
        | Some currentHeader =>
            currentExtra' <- pure (GetIbftExtra (types.ExtraData currentHeader)) ;;
            match parentExtra with
            | None => panic
            | Some parentExtra' =>
                let parentEpochNumber := Extra.EpochNumber (Extra.Checkpoint parentExtra') in
                let currentEpochNumber := Extra.EpochNumber (Extra.Checkpoint currentExtra') in
                if (blockNumber =? 1) || (parentEpochNumber =? currentEpochNumber) then
                  catchUp fuel' latestHeader (U64.incr blockNumber)
                    (Some currentHeader) (Some currentExtra') (Some currentExtra')
                else
                  match parentHeader with
                  | None => panic
                  | Some parentHeader' =>
                      encodeAndSendCheckpoint parentHeader' parentExtra' true ;;;
                      catchUp fuel' latestHeader (U64.incr blockNumber)
                        (Some currentHeader) (Some currentExtra') (Some currentExtra')
                  end
            end
        end
    end
  else ret currentExtra.

(** The initial parent context of [submitCheckpoint]. *)
Definition initialParent (latestHeader : types.Header) (initialBlockNumber : Z)
    : M W (option types.Header * option Extra.t) :=
  if initialBlockNumber <? types.Number latestHeader then
    found <- blockchain_GetHeaderByNumber initialBlockNumber ;;
    match found with
    | None => fail ("block " ++ fmt_d initialBlockNumber ++ " was not found")
    | Some parentHeader =>
        parentExtra <- pure (GetIbftExtra (types.ExtraData parentHeader)) ;;
        ret (Some parentHeader, Some parentExtra)
    end
  else ret (None, None).

(** The extra that backs the final submission: the one the loop left,
    or, when it left none, the one decoded from [latestHeader]. *)
Definition finalExtra (latestHeader : types.Header) (currentExtra : option Extra.t)
    : M W Extra.t :=
  match currentExtra with
  | None => pure (GetIbftExtra (types.ExtraData latestHeader))
  | Some extra => ret extra
  end.

(** [submitCheckpoint] up to, not including, its final submission. *)
Definition submitPending (fuel : nat) (latestHeader : types.Header)
    : M W (option Extra.t) :=
  lastCheckpointBlockNumber <- getLatestCheckpointBlock ;;
  let initialBlockNumber := U64.incr lastCheckpointBlockNumber in
  parent <- initialParent latestHeader initialBlockNumber ;;
  catchUp fuel latestHeader (U64.incr initialBlockNumber)
    (fst parent) (snd parent) None.

(** [submitCheckpoint] sends the pending checkpoints of missed
    epoch-ending blocks and then the checkpoint of [latestHeader]. *)
Definition submitCheckpoint (fuel : nat) (latestHeader : types.Header)
    (isEndOfEpoch : bool) : M W unit :=
  currentExtra <- submitPending fuel latestHeader ;;
  extra <- finalExtra latestHeader currentExtra ;;
  encodeAndSendCheckpoint latestHeader extra isEndOfEpoch.

(** [isCheckpointBlock] *)
Definition isCheckpointBlock (c : checkpointManager)
    (blockNumber checkpointsOffset : Z) (isEpochEndingBlock : bool) : bool :=
  isEpochEndingBlock || (blockNumber =? U64.add (lastSentBlock c) checkpointsOffset).

(** The type switch of [PostBlock] over the extracted events. *)
Fixpoint exitEventsOf (events : list EventAbi) : list ExitEvent :=
  match events with
  | [] => []
  | EvExit e :: rest => e :: exitEventsOf rest
  | _ :: rest => exitEventsOf rest
  end.

Fixpoint slashedEventsOf (events : list EventAbi) : list contractsapi.SlashedEvent :=
  match events with
  | [] => []
  | EvSlashed e :: rest => e :: slashedEventsOf rest
  | _ :: rest => slashedEventsOf rest
  end.

(** [sort.Slice] with the comparison [ID.Cmp < 0], as an insertion sort.
    [sort.Slice] is not stable; on events of pairwise distinct IDs every
    sorting algorithm returns the same slice ([sortExitEvents_unique]). *)
Fixpoint insertByID (e : ExitEvent) (l : list ExitEvent) : list ExitEvent :=
  match l with
  | [] => [e]
  | x :: l' =>
      if ExitEvent_ID x <? ExitEvent_ID e
      then x :: insertByID e l'
      else e :: l
  end.

Fixpoint sortExitEvents (l : list ExitEvent) : list ExitEvent :=
  match l with
  | [] => []
  | e :: l' => insertByID e (sortExitEvents l')
  end.

(** The tail of [PostBlock]: the checkpoint is due and this node is the
    miner, so the submission is started and the cadence hint recorded. *)
Definition launchCheckpoint (req : PostBlockRequest) : M W unit :=
  go (mkGoroutine (Header (FullBlock_Block (ReqFullBlock req)))
        (IsEpochEndingBlock req) (ReqEpoch req)) ;;;
  set_lastSentBlock (Block_Number (FullBlock_Block (ReqFullBlock req))).

Definition checkpointDue (c : checkpointManager) (req : PostBlockRequest) : bool :=
  isCheckpointBlock c
    (types.Number (Header (FullBlock_Block (ReqFullBlock req))))
    (CheckpointInterval req) (IsEpochEndingBlock req)
  && bytes_Equal (ethgo.KeyAddress (key c))
       (types.Miner (Header (FullBlock_Block (ReqFullBlock req)))).

(** The first part of [PostBlock]: the events of the block range are
    extracted and persisted, the watermark is advanced and the slashed
    exits are removed from the pending queue. *)
Definition persistBlock (req : PostBlockRequest) : M W unit :=
  let block := Block_Number (FullBlock_Block (ReqFullBlock req)) in
  lastBlock <-
    wrap_err (fun e => "could not get last processed block for exit events. Error: " ++ e)
      store_getLastSaved ;;
  events <- eventsGetter_getFromBlocks lastBlock (ReqFullBlock req) ;;
  let exitEvents := sortExitEvents (exitEventsOf events) in
  let slashedEvents := slashedEventsOf events in
  store_insertExitEvents exitEvents ;;;
  store_updateLastSaved block ;;;
  let processedExitIDs :=
    map (fun event => BigInt_Uint64 (contractsapi.ExitID event)) slashedEvents in
  store_removeSlashExitEvents processedExitIDs.

(** [PostBlock], called on every insert of a finalized block. *)
Definition PostBlock (req : PostBlockRequest) : M W unit :=
  persistBlock req ;;;
  c <- get_cm ;;
  if checkpointDue c req
  then launchCheckpoint req
  else ret tt.

(** What a started goroutine does when it runs: a failed submission is
    logged and dropped. *)
Definition runGoroutine (fuel : nat) (g : Goroutine) : M W unit :=
  r <- attempt (submitCheckpoint fuel (goHeader g) (goIsEndOfEpoch g)) ;;
  ret tt.

(** [createExitTree] *)
Fixpoint encodeExitEvents (exitEvents : list ExitEvent) : goret (list bytes) :=
  match exitEvents with
  | [] => Val []
  | e :: rest =>
      match L2StateSyncedEvent_Encode (L2StateSyncedEvent e) with
      | Fail err => Fail err
      | Val b =>
          match encodeExitEvents rest with
          | Fail err => Fail err
          | Val data => Val (b :: data)
          end
      end
  end.

Definition createExitTree (exitEvents : list ExitEvent) : goret MerkleTree :=
  match encodeExitEvents exitEvents with
  | Fail err => Fail err
  | Val data => NewMerkleTree data
  end.

(** [BuildEventRoot] *)
Definition BuildEventRoot (epoch : Z) : M W types.Hash :=
  exitEvents <- store_getExitEventsByEpoch epoch ;;
  match exitEvents with
  | [] => ret types.ZeroHash
  | _ :: _ =>
      tree <- pure (createExitTree exitEvents) ;;
      ret (MerkleTree_Hash tree)
  end.

(** [GenerateExitProof] generates the proof of one exit event. *)
Definition GenerateExitProof (exitID : Z) : M W Proof.t :=
  exitEvent <- store_getExitEvent exitID ;;
  input <-
    wrap_err (fun e => "failed to encode get checkpoint block input: " ++ e)
      (pure (GetCheckpointBlock_EncodeAbi (BlockNumber exitEvent))) ;;
  c <- get_cm ;;
  getCheckpointBlockResp <-
    wrap_err (fun e => "failed to retrieve checkpoint block for exit ID "
                         ++ fmt_d exitID ++ ": " ++ e)
      (rootChainRelayer_Call ethgo.ZeroAddress (checkpointManagerAddr c) input) ;;
  getCheckpointBlockRespRaw <-
    wrap_err (fun e => "failed to decode hex response for exit ID "
                         ++ fmt_d exitID ++ ": " ++ e)
      (pure (DecodeHex getCheckpointBlockResp)) ;;
  getCheckpointBlockGeneric <-
    wrap_err (fun e => "failed to decode checkpoint block response for exit ID "
                         ++ fmt_d exitID ++ ": " ++ e)
      (pure (GetCheckpointBlockABIResponse_Decode getCheckpointBlockRespRaw)) ;;
  match getCheckpointBlockGeneric with
  | VMap checkpointBlockMap =>
      match map_lookup "isFound" checkpointBlockMap with
      | None => fail ("invalid response for exit ID " ++ fmt_d exitID)
      | Some (VBool true) =>
          match map_lookup "checkpointBlock" checkpointBlockMap with
          | Some (VBigInt checkpointBlock) =>
              e <- pure (L2StateSyncedEvent_Encode (L2StateSyncedEvent exitEvent)) ;;
              exitEvents <-
                store_getExitEventsForProof (EpochNumber exitEvent)
                  (BigInt_Uint64 checkpointBlock) ;;
              tree <- pure (createExitTree exitEvents) ;;
              leafIndex <- pure (MerkleTree_LeafIndex tree e) ;;
              proof <- pure (MerkleTree_GenerateProof tree e) ;;
              ret (Proof.mk proof
                     [("LeafIndex", Proof.MLeafIndex leafIndex);
                      ("ExitEvent", Proof.MExitEvent exitEvent);
                      ("CheckpointBlock", Proof.MCheckpointBlock checkpointBlock)])
          | _ => fail ("checkpoint block not found for exit ID " ++ fmt_d exitID)
          end
      | Some _ => fail ("checkpoint block not found for exit ID " ++ fmt_d exitID)
      end
  | _ => fail ("failed to convert for checkpoint block response exit ID "
                 ++ fmt_d exitID)
  end.

(** The loop of [GenerateSlashExitProofs]: an ID whose proof fails is
    skipped. *)
Fixpoint collectProofs (slashExitIDs : list Z) (proofs : list Proof.t)
    : M W (list Proof.t) :=
  match slashExitIDs with
  | [] => ret proofs
  | slashExitID :: rest =>
      r <- attempt (GenerateExitProof slashExitID) ;;
      match r with
      | Fail _ => collectProofs rest proofs
      | Val proof => collectProofs rest (proofs ++ [proof])%list
      end
  end.

(** The proofs of exactly the IDs whose single proof succeeded, in the
    order of the IDs: [collected ids m m' proofs] relates the machine
    before and after generating the proofs of [ids] one after the other
    to the proofs of those that did not fail. *)
Inductive collected : list Z -> Machine W -> Machine W -> list Proof.t -> Prop :=
| collected_nil m : collected [] m m []
| collected_ok id ids m m1 m' proof proofs :
    GenerateExitProof id m = (m1, Ok proof) ->
    collected ids m1 m' proofs ->
    collected (id :: ids) m m' (proof :: proofs)
| collected_skip id ids m m1 m' e proofs :
    GenerateExitProof id m = (m1, Err e) ->
    collected ids m1 m' proofs ->
    collected (id :: ids) m m' proofs.

(** [GenerateSlashExitProofs] *)
Definition GenerateSlashExitProofs : M W (list Proof.t) :=
  slashExitIDs <-
    wrap_err (fun e => "failed to retrieve pending slash exit ids: " ++ e)
      store_getPendingSlashExitIDs ;;
  collectProofs slashExitIDs [].

(** Modelled from the spec: [decodeExitEvent], which is defined outside
    [checkpoint_manager.go].  It decodes the log into an exit event that
    carries the epoch and the block number it is given. *)
Definition decodeExitEvent (l : ethgo.Log) (epoch block : Z) : goret ExitEvent :=
  match L2StateSyncedEvent_ParseLog l with
  | Fail err => Fail err
  | Val ev => Val (mkExitEvent ev epoch block)
  end.

(** [parseEvent] parses an exit or a slashed event from a log.  The
    result is the returned triple; [None] is the panic of indexing an
    empty topic list. *)
Definition parseEvent (h : types.Header) (l : ethgo.Log)
    : option (EventAbi * bool * option error) :=
  match ethgo.Topics l with
  | [] => None
  | topic0 :: _ =>
      if bytes_Equal topic0 ExitEvent_Sig then
        match GetIbftExtra (types.ExtraData h) with
        | Fail err =>
            Some (EvNone, false,
                  Some ("could not get header extra on exit event parsing. Error: " ++ err))
        | Val extra =>
            let epoch := Extra.EpochNumber (Extra.Checkpoint extra) in
            let block := types.Number h in
            let attributed :=
              match Extra.Validators extra with
              | Some _ => (U64.incr epoch, U64.incr block)
              | None => (epoch, block)
              end in
            match decodeExitEvent l (fst attributed) (snd attributed) with
            | Fail err => Some (EvNone, false, Some err)
            | Val event => Some (EvExit event, true, None)
            end
        end
      else if bytes_Equal topic0 SlashedEvent_Sig then
        let '(slashedEvent, matches, err) := SlashedEvent_ParseLog l in
        Some (EvSlashed slashedEvent, matches, err)
      else Some (EvNone, false, None)
  end.

End Manager.

(** ** In-memory collaborators

    An implementation of the collaborators over plain data, in the way
    the manager's unit tests set them up: headers, validator sets and
    root-chain replies are looked up in tables, the relayer records what
    it is sent, and the exit event store keeps its tables in lists. *)

Module InMemory.

Record World := mkWorld {
  headers : Z -> option types.Header;
  validators : Z -> goret validator.AccountSet;
  currentCheckpointBlockNumber : goret string;
  checkpointBlockOf : Z -> goret string;
  receiptOf : ethgo.Transaction -> goret ethgo.Receipt;
  sent : list ethgo.Transaction;
  exitEvents : list ExitEvent;
  lastSaved : Z;
  pendingSlashExitIDs : list Z;
  extracted : Z -> FullBlock -> goret (list EventAbi);
  fault : Op -> option error
}.

Definition byte_to_Z (b : byte) : Z := Z.of_N (Byte.to_N b).

Definition byte_of_Z (z : Z) : byte :=
  match Byte.of_N (Z.to_N (z mod 256)) with
  | Some b => b
  | None => x00
  end.

Definition with_sent (w : World) (txn : ethgo.Transaction) : World :=
  mkWorld (headers w) (validators w) (currentCheckpointBlockNumber w)
    (checkpointBlockOf w) (receiptOf w) (sent w ++ [txn])%list (exitEvents w)
    (lastSaved w) (pendingSlashExitIDs w) (extracted w) (fault w).

Definition with_exitEvents (w : World) (events : list ExitEvent) : World :=
  mkWorld (headers w) (validators w) (currentCheckpointBlockNumber w)
    (checkpointBlockOf w) (receiptOf w) (sent w) events
    (lastSaved w) (pendingSlashExitIDs w) (extracted w) (fault w).

Definition with_lastSaved (w : World) (block : Z) : World :=
  mkWorld (headers w) (validators w) (currentCheckpointBlockNumber w)
    (checkpointBlockOf w) (receiptOf w) (sent w) (exitEvents w)
    block (pendingSlashExitIDs w) (extracted w) (fault w).

Definition with_pending (w : World) (ids : list Z) : World :=
  mkWorld (headers w) (validators w) (currentCheckpointBlockNumber w)
    (checkpointBlockOf w) (receiptOf w) (sent w) (exitEvents w)
    (lastSaved w) ids (extracted w) (fault w).


(** A read that fails exactly when a fault is planted on it. *)
Definition reading {A} (w : World) (o : Op) (a : A) : World * goret A :=
  (w, match fault w o with
      | Some e => Fail e
      | None => Val a
      end).

(** A write that fails, leaving the tables as they are, exactly when a
    fault is planted on it. *)
Definition writing (w : World) (o : Op) (w' : World) : World * option error :=
  match fault w o with
  | Some e => (w, Some e)
  | None => (w', None)
  end.

(** The root-chain contract: the method is told by the first byte of
    the call data. *)
Definition rootChainCall (input : bytes) (w : World) : World * goret string :=
  (w, match input with
      | [x01] => currentCheckpointBlockNumber w
      | [x02; b] => checkpointBlockOf w (byte_to_Z b)
      | _ => Fail "unknown method"
      end).

Definition sendTransaction (txn : ethgo.Transaction) (k : ethgo.Key) (w : World)
    : World * goret ethgo.Receipt :=
  match receiptOf w txn with
  | Val r => (with_sent w txn, Val r)
  | Fail e => (w, Fail e)
  end.

(** Modelled from the spec: [ExitEventStore.insertExitEvents], of the
    store that is not part of the files at hand.  It appends the exit
    events; the store preserves insertion order. *)
Definition store_insert (events : list ExitEvent) (w : World) : World * option error :=
  writing w (OpInsertExitEvents events)
    (with_exitEvents w (exitEvents w ++ events)%list).

(** Modelled from the spec: [ExitEventStore.getExitEventsByEpoch], a
    range read of the epoch's events in the order the store holds them. *)
Definition store_byEpoch (epoch : Z) (w : World) : World * goret (list ExitEvent) :=
  reading w (OpGetExitEventsByEpoch epoch)
    (filter (fun e => EpochNumber e =? epoch) (exitEvents w)).

(** Modelled from the spec: [ExitEventStore.getExitEventsForProof], the
    epoch's events with [BlockNumber <= maxBlockNumber]. *)
Definition store_forProof (epoch maxBlockNumber : Z) (w : World)
    : World * goret (list ExitEvent) :=
  reading w (OpGetExitEventsForProof epoch maxBlockNumber)
    (filter (fun e => (EpochNumber e =? epoch) && (BlockNumber e <=? maxBlockNumber))
       (exitEvents w)).

(** Modelled from the spec: [ExitEventStore.getExitEvent], a point
    lookup that fails with a not-found error when the ID is absent. *)
Definition store_get (id : Z) (w : World) : World * goret ExitEvent :=
  (w, match fault w (OpGetExitEvent id) with
      | Some e => Fail e
      | None =>
          match find (fun e => ExitEvent_ID e =? id) (exitEvents w) with
          | Some e => Val e
          | None => Fail "exit event not found"
          end
      end).

(** Modelled from the spec: the watermark read and write. *)
Definition store_lastSaved (w : World) : World * goret Z :=
  reading w OpGetLastSaved (lastSaved w).

Definition store_updateLast (block : Z) (w : World) : World * option error :=
  writing w (OpUpdateLastSaved block) (with_lastSaved w block).

(** Modelled from the spec: [ExitEventStore.removeSlashExitEvents], an
    idempotent bulk delete from the pending queue; absent IDs are
    ignored. *)
Definition store_removeSlash (ids : list Z) (w : World) : World * option error :=
  writing w (OpRemoveSlashExitEvents ids)
    (with_pending w
       (filter (fun id => negb (existsb (Z.eqb id) ids)) (pendingSlashExitIDs w))).

(** Modelled from the spec: [ExitEventStore.getPendingSlashExitIDs]. *)
Definition store_pending (w : World) : World * goret (list Z) :=
  reading w OpGetPendingSlashExitIDs (pendingSlashExitIDs w).

#[global] Instance memBackend : Backend World := {
  GetHeaderByNumber n w := (w, headers w n);
  GetValidators n w := (w, validators w n);
  Call from to input w := rootChainCall input w;
  SendTransaction := sendTransaction;
  getLastSaved := store_lastSaved;
  updateLastSaved := store_updateLast;
  insertExitEvents := store_insert;
  removeSlashExitEvents := store_removeSlash;
  getExitEventsByEpoch := store_byEpoch;
  getExitEventsForProof := store_forProof;
  getExitEvent := store_get;
  getPendingSlashExitIDs := store_pending;
  getFromBlocks last b w := (w, extracted w last b)
}.

(** Stand-ins for the codecs: one byte per number, the epoch and an
    end-of-epoch flag as the header extra, and the list of leaves as the
    Merkle tree. *)
Definition getIbftExtra (data : bytes) : goret Extra.t :=
  match data with
  | [e; f] =>
      Val (Extra.mk
             (if Byte.eqb f x01 then Some [] else None)
             (Extra.mkSignature [] [])
             (Extra.mkCheckpointData 0 (byte_to_Z e) [] []))
  | _ => Fail "invalid extra data"
  end.

Definition submitBytes (fn : SubmitCheckpointManagerFn) : bytes :=
  [byte_of_Z (contractsapi.Epoch (Checkpoint fn));
   byte_of_Z (contractsapi.BlockNumber (Checkpoint fn));
   byte_of_Z (Z.of_nat (List.length (NewValidatorSet fn)))].

Definition encodeSubmit (fn : SubmitCheckpointManagerFn) : goret bytes :=
  Val (submitBytes fn).

Definition parseUint (s : string) : goret Z :=
  match NilEmpty.uint_of_string s with
  | Some u => Val (Z.of_N (N.of_uint u))
  | None => Fail "invalid syntax"
  end.

Definition decodeCheckpointBlock (raw : bytes) : goret GoValue :=
  match raw with
  | [x01; b] =>
      Val (VMap (MapCons "isFound" (VBool true)
                   (MapCons "checkpointBlock" (VBigInt (byte_to_Z b)) MapNil)))
  | [x00] =>
      Val (VMap (MapCons "isFound" (VBool false)
                   (MapCons "checkpointBlock" (VBigInt 0) MapNil)))
  | _ => Fail "invalid response"
  end.

Definition parseL2StateSynced (l : ethgo.Log) : goret contractsapi.L2StateSyncedEvent :=
  match ethgo.LogData l with
  | id :: payload => Val (contractsapi.mkL2StateSyncedEvent (byte_to_Z id) payload)
  | [] => Fail "empty log data"
  end.

Definition parseSlashed (l : ethgo.Log)
    : contractsapi.SlashedEvent * bool * option error :=
  match ethgo.LogData l with
  | id :: _ => (contractsapi.mkSlashedEvent (byte_to_Z id), true, None)
  | [] => (contractsapi.mkSlashedEvent 0, false, Some "empty log data")
  end.

Fixpoint leafIndex (leaves : list bytes) (leaf : bytes) (i : Z) : goret Z :=
  match leaves with
  | [] => Fail "leaf not found"
  | x :: rest => if bytes_Equal x leaf then Val i else leafIndex rest leaf (i + 1)
  end.

Definition generateProof (leaves : list bytes) (leaf : bytes) : goret (list types.Hash) :=
  match leafIndex leaves leaf 0 with
  | Val _ => Val (filter (fun x => negb (bytes_Equal x leaf)) leaves)
  | Fail e => Fail e
  end.

#[global] Instance memCodec : Codec := {
  GetIbftExtra := getIbftExtra;
  BlsSignature := bytes;
  UnmarshalSignature b := Val b;
  ToBigInt b := Val (Z.of_nat (List.length b), 0);
  ToAPIBinding s := s;
  SubmitCheckpoint_EncodeAbi := encodeSubmit;
  currentCheckpointBlockNum_Encode := Val [x01];
  ParseUint := parseUint;
  ReceiptFailed := 0;
  GetCheckpointBlock_EncodeAbi n := Val [x02; byte_of_Z n];
  DecodeHex s := Val (list_byte_of_string s);
  GetCheckpointBlockABIResponse_Decode := decodeCheckpointBlock;
  L2StateSyncedEvent_Encode ev :=
    Val (byte_of_Z (contractsapi.ID ev) :: contractsapi.Payload ev);
  L2StateSyncedEvent_ParseLog := parseL2StateSynced;
  MerkleTree := list bytes;
  NewMerkleTree data :=
    match data with [] => Fail "empty leaf set" | _ => Val data end;
  MerkleTree_Hash t := List.concat t;
  MerkleTree_LeafIndex t leaf := leafIndex t leaf 0;
  MerkleTree_GenerateProof := generateProof;
  ExitEvent_Sig := [x0e];
  SlashedEvent_Sig := [x05];
  SlashedEvent_ParseLog := parseSlashed
}.

End InMemory.

(** ** Concrete scenarios *)

Module Scenario.
Import InMemory.

(** A world with an empty chain, an empty store and a root chain that
    accepts every transaction. *)
Definition emptyWorld : World :=
  mkWorld (fun _ => None) (fun _ => Val []) (Val "0")
    (fun _ => Fail "no reply") (fun _ => Val (ethgo.mkReceipt 1 21000))
    [] [] 0 [] (fun _ _ => Val []) (fun _ => None).

Definition nodeAddress : types.Address := [x0a].

Definition node : checkpointManager :=
  mkCheckpointManager (ethgo.mkKey nodeAddress) [x0c] 0.

Definition machine (w : World) : Machine World := mkMachine node [] [] w.

Definition exitEvent (id epoch block : Z) : ExitEvent :=
  mkExitEvent (contractsapi.mkL2StateSyncedEvent id []) epoch block.

(** Three stored exits in epoch 1, at blocks 1, 2 and 3, all pending
    slash exits; the root chain has a checkpoint (block 5) covering
    blocks 1 and 3, and none yet for block 2. *)
Definition threeExits : World :=
  mkWorld (fun _ => None) (fun _ => Val []) (Val "0")
    (fun n => if n =? 2
              then Val (string_of_list_byte [x00])
              else Val (string_of_list_byte [x01; x05]))
    (fun _ => Val (ethgo.mkReceipt 1 21000))
    [] [exitEvent 1 1 1; exitEvent 2 1 2; exitEvent 3 1 3] 3 [1; 2; 3]
    (fun _ _ => Val []) (fun _ => None).

(** The IDs of the exits a list of proofs is about. *)
Definition provenExitIDs (proofs : list Proof.t) : list Z :=
  flat_map
    (fun p =>
       flat_map
         (fun kv => match snd kv with
                    | Proof.MExitEvent e => [ExitEvent_ID e]
                    | _ => []
                    end)
         (Proof.Metadata p))
    proofs.

(** A node that mined block 8, the last block of epoch 2. *)
Definition block8 : types.Header := types.mkHeader 8 [x08] [x02; x01] nodeAddress.

Definition request8 : PostBlockRequest :=
  mkPostBlockRequest (mkFullBlock (mkBlock block8)) 2 true 5.

(** A store whose watermark write fails, with one exit event to extract. *)
Definition watermarkFails : World :=
  mkWorld (fun _ => None) (fun _ => Val []) (Val "0")
    (fun _ => Fail "no reply") (fun _ => Val (ethgo.mkReceipt 1 21000))
    [] [] 7 [] (fun _ _ => Val [EvExit (exitEvent 4 2 8)])
    (fun o => match o with
              | OpUpdateLastSaved _ => Some "bolt: write failed"
              | _ => None
              end).

(** A store whose watermark read fails. *)
Definition storeDown : World :=
  mkWorld (fun _ => None) (fun _ => Val []) (Val "0")
    (fun _ => Fail "no reply") (fun _ => Val (ethgo.mkReceipt 1 21000))
    [] [] 7 [] (fun _ _ => Val [])
    (fun o => match o with
              | OpGetLastSaved => Some "bolt: database not open"
              | _ => None
              end).

(** A healthy store, with two exit events to extract out of order. *)
Definition healthy : World :=
  mkWorld (fun _ => None) (fun _ => Val []) (Val "0")
    (fun _ => Fail "no reply") (fun _ => Val (ethgo.mkReceipt 1 21000))
    [] [] 7 [] (fun _ _ => Val [EvExit (exitEvent 5 2 8); EvExit (exitEvent 4 2 8)])
    (fun _ => None).

(** A log of the exit-event kind, carrying exit ID 4. *)
Definition exitLog : ethgo.Log := ethgo.mkLog [x10] [[x0e]] [x04; x2a].

(** A block in the middle of epoch 2. *)
Definition block7 : types.Header := types.mkHeader 7 [x07] [x02; x00] nodeAddress.

(** A chain of forty blocks: blocks 1 to 15 belong to epoch 1, 16 to 25
    to epoch 2 and 26 to 40 to epoch 3; blocks 15, 25 and 40 end their
    epochs.  The root chain's latest checkpoint block is 10. *)
Definition epochByte (n : Z) : byte :=
  if n <=? 15 then x01 else if n <=? 25 then x02 else x03.

Definition endFlag (n : Z) : byte :=
  if (n =? 15) || (n =? 25) || (n =? 40) then x01 else x00.

Definition chainHeader (n : Z) : types.Header :=
  types.mkHeader n [byte_of_Z n] [epochByte n; endFlag n] nodeAddress.

Definition chainExtra (n : Z) : Extra.t :=
  Extra.mk
    (if Byte.eqb (endFlag n) x01 then Some [] else None)
    (Extra.mkSignature [] [])
    (Extra.mkCheckpointData 0 (byte_to_Z (epochByte n)) [] []).

Definition chainValidators (n : Z) : validator.AccountSet := [[byte_of_Z n]].

Definition catchUpWorld : World :=
  mkWorld
    (fun n => if (1 <=? n) && (n <=? 40) then Some (chainHeader n) else None)
    (fun n => Val (chainValidators n)) (Val "10")
    (fun _ => Fail "no reply") (fun _ => Val (ethgo.mkReceipt 1 21000))
    [] [] 0 [] (fun _ _ => Val []) (fun _ => None).

(** A header numbered 40 that is not the chain's block 40: its extra
    data names epoch 9. *)
Definition staleHeader : types.Header :=
  types.mkHeader 40 [x28] [x09; x01] nodeAddress.

(** A header with the largest block number a [uint64] holds. *)
Definition lastHeader : types.Header :=
  types.mkHeader U64.max [xff] [x03; x00] nodeAddress.

(** A root chain that reports [2^64 - 2] as its latest checkpoint
    block, over a chain that serves block 0. *)
Definition wrappedCursor : World :=
  mkWorld
    (fun n => if n =? 0 then Some (chainHeader 0) else None)
    (fun n => Val (chainValidators n)) (Val "18446744073709551614")
    (fun _ => Fail "no reply") (fun _ => Val (ethgo.mkReceipt 1 21000))
    [] [] 0 [] (fun _ _ => Val []) (fun _ => None).

(** A root chain on which every transaction fails. *)
Definition rejecting : World :=
  mkWorld
    (fun n => if (1 <=? n) && (n <=? 40) then Some (chainHeader n) else None)
    (fun n => Val (chainValidators n)) (Val "40")
    (fun _ => Fail "no reply") (fun _ => Val (ethgo.mkReceipt 0 21000))
    [] [] 0 [] (fun _ _ => Val []) (fun _ => None).

(** A root chain that is already at block 40. *)
Definition caughtUp : World :=
  mkWorld
    (fun n => if (1 <=? n) && (n <=? 40) then Some (chainHeader n) else None)
    (fun n => Val (chainValidators n)) (Val "40")
    (fun _ => Fail "no reply") (fun _ => Val (ethgo.mkReceipt 1 21000))
    [] [] 0 [] (fun _ _ => Val []) (fun _ => None).

(** A store on which the removal of slashed exits fails, with one exit
    event and one slashed event to extract. *)
Definition removalFails : World :=
  mkWorld (fun _ => None) (fun _ => Val []) (Val "0")
    (fun _ => Fail "no reply") (fun _ => Val (ethgo.mkReceipt 1 21000))
    [] [] 7 [3]
    (fun _ _ => Val [EvExit (exitEvent 4 2 8);
                      EvSlashed (contractsapi.mkSlashedEvent 3)])
    (fun o => match o with
              | OpRemoveSlashExitEvents _ => Some "bolt: write failed"
              | _ => None
              end).

(** A log of the slashed-event kind, for exit ID 3, and a log of an
    unknown kind. *)
Definition slashedLog : ethgo.Log := ethgo.mkLog [x11] [[x05]] [x03].
Definition otherLog : ethgo.Log := ethgo.mkLog [x11] [[x77]] [x03].

(** A header whose extra data cannot be decoded. *)
Definition brokenHeader : types.Header := types.mkHeader 9 [x09] [x01] nodeAddress.

(** The proof of exit 1 over [threeExits]: the tree holds the three
    exits of epoch 1, the exit is leaf 0, and the checkpoint block is 5. *)
Definition proofOfExit1 : Proof.t :=
  Proof.mk [[x02]; [x03]]
    [("LeafIndex", Proof.MLeafIndex 0);
     ("ExitEvent", Proof.MExitEvent (exitEvent 1 1 1));
     ("CheckpointBlock", Proof.MCheckpointBlock 5)].

(** A root chain whose reply says a checkpoint was found and names no
    block. *)
Definition foundWithoutBlock : GoMap :=
  MapCons "isFound" (VBool true) MapNil.

(** The codecs of [InMemory], except that the reply [[x02]] decodes to
    a map that says a checkpoint was found and names no block. *)
Definition looseCodec : Codec := {|
  GetIbftExtra := getIbftExtra;
  BlsSignature := bytes;
  UnmarshalSignature := fun b => Val b;
  ToBigInt := fun b => Val (Z.of_nat (List.length b), 0);
  ToAPIBinding := fun s => s;
  SubmitCheckpoint_EncodeAbi := encodeSubmit;
  currentCheckpointBlockNum_Encode := Val [x01];
  ParseUint := parseUint;
  ReceiptFailed := 0;
  GetCheckpointBlock_EncodeAbi := fun n => Val [x02; byte_of_Z n];
  DecodeHex := fun s => Val (list_byte_of_string s);
  GetCheckpointBlockABIResponse_Decode :=
    fun raw => match raw with
               | [x02] => Val (VMap foundWithoutBlock)
               | _ => decodeCheckpointBlock raw
               end;
  L2StateSyncedEvent_Encode :=
    fun ev => Val (byte_of_Z (contractsapi.ID ev) :: contractsapi.Payload ev);
  L2StateSyncedEvent_ParseLog := parseL2StateSynced;
  MerkleTree := list bytes;
  NewMerkleTree :=
    fun data => match data with [] => Fail "empty leaf set" | _ => Val data end;
  MerkleTree_Hash := fun t => List.concat t;
  MerkleTree_LeafIndex := fun t leaf => leafIndex t leaf 0;
  MerkleTree_GenerateProof := generateProof;
  ExitEvent_Sig := [x0e];
  SlashedEvent_Sig := [x05];
  SlashedEvent_ParseLog := parseSlashed
|}.

(** The store of [threeExits] under a root chain that answers every
    [getCheckpointBlock] with the reply [[x02]]. *)
Definition vagueReply : World :=
  mkWorld (fun _ => None) (fun _ => Val []) (Val "0")
    (fun _ => Val (string_of_list_byte [x02]))
    (fun _ => Val (ethgo.mkReceipt 1 21000))
    [] [exitEvent 1 1 1; exitEvent 2 1 2; exitEvent 3 1 3] 3 [1; 2; 3]
    (fun _ _ => Val []) (fun _ => None).

(** A log without topics. *)
Definition bareLog : ethgo.Log := ethgo.mkLog [x10] [] [x04].

End Scenario.

(** ** Predicates on runs *)

Section Runs.
Context {W : Type}.

(** A stretch of the call log in which no call returned an error. *)
Definition clean (t : list Called) : Prop :=
  Forall (fun x => snd x = None) t.

(** A computation that leaves the manager and the goroutines as they
    are and makes only calls that satisfy [P]. *)
Definition confined (c : checkpointManager) (P : Called -> Prop) {A}
    (comp : M W A) : Prop :=
  forall m m' r,
    cm m = c -> comp m = (m', r) ->
    cm m' = c
    /\ goroutines m' = goroutines m
    /\ exists t, trace m' = (trace m ++ t)%list /\ Forall P t.

(** A computation in which a call that returns an error is the last
    call made, and makes the computation return an error. *)
Definition abortive {A} (comp : M W A) : Prop :=
  forall m m' r,
    comp m = (m', r) ->
    exists t,
      trace m' = (trace m ++ t)%list
      /\ (clean t
          \/ exists t0 o e,
               t = (t0 ++ [(o, Some e)])%list /\ clean t0 /\ exists e', r = Err e').

(** A computation that is never cut off for lack of fuel. *)
Definition finishes {A} (comp : M W A) : Prop :=
  forall m, snd (comp m) <> OutOfFuel.

End Runs.

(** The calls of checkpoint submission: header lookups, validator-set
    reads, root-chain calls from the node's address to the contract, and
    dynamic-fee transactions to the contract under the node's key. *)
Definition rootChainOp (c : checkpointManager) (x : Called) : Prop :=
  match fst x with
  | OpGetHeaderByNumber _ => True
  | OpGetValidators _ => True
  | OpCall from to _ =>
      from = ethgo.KeyAddress (key c) /\ to = checkpointManagerAddr c
  | OpSendTransaction txn k =>
      ethgo.To txn = checkpointManagerAddr c
      /\ ethgo.TxType txn = ethgo.TransactionDynamicFee
      /\ k = key c
  | _ => False
  end.

(** The calls of proof generation: reads of the store and root-chain
    calls from the zero address to the contract. *)
Definition proofOp (c : checkpointManager) (x : Called) : Prop :=
  match fst x with
  | OpGetPendingSlashExitIDs => True
  | OpGetExitEvent _ => True
  | OpGetExitEventsForProof _ _ => True
  | OpCall from to _ => from = ethgo.ZeroAddress /\ to = checkpointManagerAddr c
  | _ => False
  end.

(** The block number of the goroutine started last, or [d] when none
    was started. *)
Definition lastLaunched (d : Z) (gs : list Goroutine) : Z :=
  last (map (fun g => types.Number (goHeader g)) gs) d.

(** * Properties *)

Ltac run_step :=
  unfold bind, wrap_err, attempt, call, call_total, call_err, pure, ret, fail,
    panic, out_of_fuel, get_cm, set_lastSentBlock, go.

Ltac destruct_matches :=
  repeat match goal with
         | |- context [match ?x with _ => _ end] =>
             lazymatch x with
             | context [match _ with _ => _ end] => fail
             | _ => destruct x eqn:?; simpl
             end
         end.


Ltac finish_in :=
  repeat match goal with
         | H : _ \/ _ |- _ => destruct H as [H | H]
         | H : False |- _ => destruct H
         | H : (_, _) = (_, _) |- _ => inversion H; subst; clear H
         end;
  eauto 8.


Ltac trace_eq :=
  unfold logged; simpl; repeat rewrite <- app_assoc; simpl; reflexivity.

Section Properties.
Context {codec : Codec} {W : Type} {backend : Backend W}.

Lemma bind_ret_l {A B} (a : A) (k : A -> M W B) (m : Machine W) :
  bind (ret a) k m = k a m.
Proof. reflexivity. Qed.

Lemma bind_assoc {A B C} (c : M W A) (k : A -> M W B) (k' : B -> M W C) (m : Machine W) :
  bind (bind c k) k' m = bind c (fun a => bind (k a) k') m.
Proof. unfold bind; destruct (c m) as [m' [a | e | | ]]; reflexivity. Qed.

Lemma bind_ok {A B} (c : M W A) (k : A -> M W B) m m' a :
  c m = (m', Ok a) -> bind c k m = k a m'.
Proof. unfold bind; intros ->; reflexivity. Qed.

Lemma bind_err {A B} (c : M W A) (k : A -> M W B) m m' e :
  c m = (m', Err e) -> bind c k m = (m', Err e).
Proof. unfold bind; intros ->; reflexivity. Qed.

(** C9: for an epoch whose store read yields no exit events,
    [BuildEventRoot] returns the zero hash with a nil error; and whenever
    it returns an error, either the store read failed with that error
    or the construction of the tree over the (non-empty) events did. *)
Theorem BuildEventRoot_empty_epoch (epoch : Z) (m : Machine W) :
  (forall w',
      getExitEventsByEpoch epoch (world m) = (w', Val []) ->
      BuildEventRoot epoch m
      = (logged m w' (OpGetExitEventsByEpoch epoch) None, Ok types.ZeroHash))
  /\ (forall m' e,
         BuildEventRoot epoch m = (m', Err e) ->
         (exists w', getExitEventsByEpoch epoch (world m) = (w', Fail e))
         \/ (exists w' exitEvents,
                getExitEventsByEpoch epoch (world m) = (w', Val exitEvents)
                /\ exitEvents <> []
                /\ createExitTree exitEvents = Fail e)).
Proof.
  unfold BuildEventRoot, store_getExitEventsByEpoch; split.
  - intros w' H. run_step. rewrite H. reflexivity.
  - intros m' e. run_step.
    destruct (getExitEventsByEpoch epoch (world m)) as [w' [evs | e0]] eqn:Hread.
    + destruct evs as [| ev evs]; [discriminate |].
      destruct (createExitTree (ev :: evs)) as [tree | e1] eqn:Htree;
        [discriminate |].
      intros H; inversion H; subst. right. exists w', (ev :: evs).
      repeat split; [discriminate | assumption].
    + intros H; inversion H; subst. left. now exists w'.
Qed.

(** [GenerateExitProof] always returns: a proof or an error. *)
Lemma GenerateExitProof_returns (exitID : Z) (m : Machine W) :
  exists m',
    (exists proof, GenerateExitProof exitID m = (m', Ok proof))
    \/ (exists e, GenerateExitProof exitID m = (m', Err e)).
Proof.
  unfold GenerateExitProof, store_getExitEvent, rootChainRelayer_Call,
    store_getExitEventsForProof.
  run_step. simpl. destruct_matches; eauto.
Qed.


(** The loop of [GenerateSlashExitProofs] never fails: it ends with the
    proofs collected so far followed by those of the IDs that succeed. *)
Lemma collectProofs_collected (ids : list Z) :
  forall (acc : list Proof.t) (m : Machine W),
    exists m' proofs,
      collectProofs ids acc m = (m', Ok (acc ++ proofs)%list)
      /\ collected ids m m' proofs.
Proof.
  induction ids as [| id ids IH]; intros acc m.
  - exists m, []. rewrite app_nil_r. split; [reflexivity | constructor].
  - destruct (GenerateExitProof_returns id m) as [m1 [[proof Hp] | [e He]]].
    + destruct (IH (acc ++ [proof])%list m1) as [m' [proofs [Hrun Hcol]]].
      exists m', (proof :: proofs). split.
      * simpl. unfold bind, attempt. rewrite Hp. rewrite Hrun.
        now rewrite <- app_assoc.
      * econstructor; eassumption.
    + destruct (IH acc m1) as [m' [proofs [Hrun Hcol]]].
      exists m', proofs. split.
      * simpl. unfold bind, attempt. rewrite He. exact Hrun.
      * eapply collected_skip; eassumption.
Qed.

(** C5: once the pending-ID list is read, [GenerateSlashExitProofs]
    returns a nil error together with the proofs of exactly the IDs
    whose single proof succeeded, in order, skipping the others; it
    returns an error only when reading the pending-ID list fails. *)
Theorem GenerateSlashExitProofs_best_effort (m : Machine W) :
  (forall w1 ids,
      getPendingSlashExitIDs (world m) = (w1, Val ids) ->
      exists m' proofs,
        GenerateSlashExitProofs m = (m', Ok proofs)
        /\ collected ids (logged m w1 OpGetPendingSlashExitIDs None) m' proofs)
  /\ (forall m' e,
         GenerateSlashExitProofs m = (m', Err e) ->
         exists w1 e0,
           getPendingSlashExitIDs (world m) = (w1, Fail e0)
           /\ e = "failed to retrieve pending slash exit ids: " ++ e0
           /\ m' = logged m w1 OpGetPendingSlashExitIDs (Some e0)).
Proof.
  unfold GenerateSlashExitProofs, store_getPendingSlashExitIDs. split.
  - intros w1 ids Hread.
    destruct (collectProofs_collected ids []
                (logged m w1 OpGetPendingSlashExitIDs None))
      as [m' [proofs [Hrun Hcol]]].
    exists m', proofs. split; [| exact Hcol].
    unfold bind at 1, wrap_err, call. rewrite Hread. exact Hrun.
  - intros m' e. unfold bind at 1, wrap_err, call.
    destruct (getPendingSlashExitIDs (world m)) as [w1 [ids | e0]] eqn:Hread.
    + destruct (collectProofs_collected ids []
                  (logged m w1 OpGetPendingSlashExitIDs None))
        as [m1 [proofs [Hrun _]]].
      rewrite Hrun. discriminate.
    + intros H; inversion H; subst. exists w1, e0. repeat split.
Qed.

(** [persistBlock] touches neither the manager nor the goroutines. *)
Lemma persistBlock_frame (req : PostBlockRequest) (m m1 : Machine W) (r : result unit) :
  persistBlock req m = (m1, r) -> cm m1 = cm m /\ goroutines m1 = goroutines m.
Proof.
  unfold persistBlock, store_getLastSaved, eventsGetter_getFromBlocks,
    store_insertExitEvents, store_updateLastSaved, store_removeSlashExitEvents.
  run_step. simpl. destruct_matches;
    intros H; inversion H; subst; simpl; auto.
Qed.


Lemma bytes_Equal_true (a b : bytes) : bytes_Equal a b = true <-> a = b.
Proof.
  unfold bytes_Equal; destruct (bytes_eq_dec a b); split; intros;
    try reflexivity; try assumption; try discriminate; contradiction.
Qed.

Lemma bytes_Equal_refl (a : bytes) : bytes_Equal a a = true.
Proof. now apply bytes_Equal_true. Qed.

Lemma isCheckpointBlock_true (c : checkpointManager) (n off : Z) (b : bool) :
  isCheckpointBlock c n off b = true
  <-> b = true \/ n = U64.add (lastSentBlock c) off.
Proof.
  unfold isCheckpointBlock. rewrite orb_true_iff, Z.eqb_eq. reflexivity.
Qed.

Lemma checkpointDue_true (c : checkpointManager) (req : PostBlockRequest) :
  checkpointDue c req = true
  <-> ethgo.KeyAddress (key c) = types.Miner (Header (FullBlock_Block (ReqFullBlock req)))
      /\ (IsEpochEndingBlock req = true
          \/ types.Number (Header (FullBlock_Block (ReqFullBlock req)))
             = U64.add (lastSentBlock c) (CheckpointInterval req)).
Proof.
  unfold checkpointDue.
  rewrite andb_true_iff, isCheckpointBlock_true, bytes_Equal_true. tauto.
Qed.

Lemma app_one_neq {A} (l : list A) (x : A) : (l ++ [x])%list <> l.
Proof.
  intros H. apply (f_equal (@List.length A)) in H.
  rewrite length_app in H. simpl in H. lia.
Qed.

(** C8, amended: [PostBlock] starts the checkpoint submission of a
    finalized block if and only if the persistence steps before it
    succeeded, the block's miner is this node's key address and the
    checkpoint is due (the block ends an epoch, or its number is
    [lastSentBlock] plus the checkpoint interval in 64-bit arithmetic).
    When it starts one, [lastSentBlock] is the block's number when
    [PostBlock] returns, and it returns nil: the result does not depend
    on the started submission.  When it starts none, the manager and the
    goroutines are as before. *)
Theorem PostBlock_launch_iff
    (req : PostBlockRequest) (m m' : Machine W) (r : result unit) :
  PostBlock req m = (m', r) ->
  let header := Header (FullBlock_Block (ReqFullBlock req)) in
  let launched :=
    goroutines m'
    = (goroutines m
         ++ [mkGoroutine header (IsEpochEndingBlock req) (ReqEpoch req)])%list in
  (launched <->
     (exists m1, persistBlock req m = (m1, Ok tt))
     /\ ethgo.KeyAddress (key (cm m)) = types.Miner header
     /\ (IsEpochEndingBlock req = true
         \/ types.Number header
            = U64.add (lastSentBlock (cm m)) (CheckpointInterval req)))
  /\ (launched ->
      lastSentBlock (cm m') = types.Number header
      /\ key (cm m') = key (cm m)
      /\ checkpointManagerAddr (cm m') = checkpointManagerAddr (cm m)
      /\ r = Ok tt)
  /\ (~ launched -> goroutines m' = goroutines m /\ cm m' = cm m).
Proof.
  intros Hrun header launched. unfold PostBlock, bind in Hrun.
  destruct (persistBlock req m) as [m1 r1] eqn:Hp.
  destruct (persistBlock_frame _ _ _ _ Hp) as [Hcm Hgo].
  assert (Hstop : r1 <> Ok tt -> (m', r) = (m1, r1) ->
                  (launched <->
                     (exists m2, (m1, r1) = (m2, Ok tt))
                     /\ ethgo.KeyAddress (key (cm m)) = types.Miner header
                     /\ (IsEpochEndingBlock req = true
                         \/ types.Number header
                            = U64.add (lastSentBlock (cm m)) (CheckpointInterval req)))
                  /\ (launched ->
                      lastSentBlock (cm m') = types.Number header
                      /\ key (cm m') = key (cm m)
                      /\ checkpointManagerAddr (cm m') = checkpointManagerAddr (cm m)
                      /\ r = Ok tt)
                  /\ (~ launched -> goroutines m' = goroutines m /\ cm m' = cm m)).
  { intros Hne Heq. inversion Heq; subst m' r.
    assert (Hnot : ~ launched).
    { unfold launched. rewrite Hgo. intros H. symmetry in H.
      exact (app_one_neq _ _ H). }
    repeat split; try tauto.
    intros [[m2 H2] _]. inversion H2; subst. now elim Hne. }
  destruct r1 as [[] | e | | ].
  - unfold get_cm in Hrun. rewrite Hcm in Hrun.
    destruct (checkpointDue (cm m) req) eqn:Hdue.
    + unfold launchCheckpoint, bind, go, set_lastSentBlock in Hrun. simpl in Hrun.
      inversion Hrun; subst m' r; clear Hrun.
      apply checkpointDue_true in Hdue.
      assert (Hl : launched) by (unfold launched; simpl; now rewrite Hgo).
      repeat split; simpl; try tauto; try (now rewrite Hcm).
      now exists m1.
    + unfold ret in Hrun. inversion Hrun; subst m' r; clear Hrun.
      assert (Hnot : ~ launched).
      { unfold launched. rewrite Hgo. intros H. symmetry in H.
        exact (app_one_neq _ _ H). }
      assert (Hnd : ~ (ethgo.KeyAddress (key (cm m)) = types.Miner header
                       /\ (IsEpochEndingBlock req = true
                           \/ types.Number header
                              = U64.add (lastSentBlock (cm m)) (CheckpointInterval req)))).
      { intros H. apply checkpointDue_true in H. congruence. }
      repeat split; try tauto.
  - apply Hstop; [discriminate | now symmetry].
  - apply Hstop; [discriminate | now symmetry].
  - apply Hstop; [discriminate | now symmetry].
Qed.

(** A started submission that fails is logged, not propagated: running
    the goroutine never returns an error. *)
Lemma runGoroutine_no_error (fuel : nat) (g : Goroutine) (m m' : Machine W) (e : error) :
  runGoroutine fuel g m <> (m', Err e).
Proof.
  unfold runGoroutine, bind, attempt, ret.
  destruct (submitCheckpoint fuel (goHeader g) (goIsEndOfEpoch g) m)
    as [m1 [[] | e1 | | ]]; discriminate.
Qed.

(** C6: for a log whose first topic is the exit-event signature, on a
    header whose decoded extra carries a validator set (an epoch-ending
    block) [parseEvent] attributes the decoded exit event to the header's
    epoch number plus one and to the header's number plus one (in 64-bit
    arithmetic, which is the plain sum below the largest value); on a
    header without a validator set it uses the header's own epoch and
    number. *)
Theorem parseEvent_attribution
    (h : types.Header) (l : ethgo.Log) (rest : list types.Hash)
    (extra : Extra.t) (ev : contractsapi.L2StateSyncedEvent) :
  ethgo.Topics l = ExitEvent_Sig :: rest ->
  GetIbftExtra (types.ExtraData h) = Val extra ->
  L2StateSyncedEvent_ParseLog l = Val ev ->
  let epoch := Extra.EpochNumber (Extra.Checkpoint extra) in
  let number := types.Number h in
  (forall delta,
      Extra.Validators extra = Some delta ->
      parseEvent h l
      = Some (EvExit (mkExitEvent ev (U64.incr epoch) (U64.incr number)), true, None)
      /\ (0 <= epoch < U64.max -> U64.incr epoch = epoch + 1)
      /\ (0 <= number < U64.max -> U64.incr number = number + 1))
  /\ (Extra.Validators extra = None ->
      parseEvent h l = Some (EvExit (mkExitEvent ev epoch number), true, None)).
Proof.
  intros Htopics Hextra Hlog epoch number.
  assert (Hsmall : forall z, 0 <= z < U64.max -> U64.incr z = z + 1).
  { intros z Hz. unfold U64.incr, U64.add, U64.wrap.
    apply Z.mod_small. unfold U64.max in Hz. lia. }
  split.
  - intros delta Hdelta. repeat split; [| apply Hsmall | apply Hsmall].
    unfold parseEvent, decodeExitEvent.
    rewrite Htopics, bytes_Equal_refl, Hextra, Hdelta. simpl.
    rewrite Hlog. reflexivity.
  - intros Hnone. unfold parseEvent, decodeExitEvent.
    rewrite Htopics, bytes_Equal_refl, Hextra, Hnone. simpl.
    rewrite Hlog. reflexivity.
Qed.

Lemma catchUp_unfold (fuel : nat) (latestHeader : types.Header) (blockNumber : Z)
    (parentHeader : option types.Header) (parentExtra currentExtra : option Extra.t) :
  catchUp fuel latestHeader blockNumber parentHeader parentExtra currentExtra
  = if blockNumber <=? types.Number latestHeader then
      match fuel with
      | O => out_of_fuel
      | S fuel' =>
          found <- blockchain_GetHeaderByNumber blockNumber ;;
          match found with
          | None => fail ("block " ++ fmt_d blockNumber ++ " was not found")
          | Some currentHeader =>
              currentExtra' <- pure (GetIbftExtra (types.ExtraData currentHeader)) ;;
              match parentExtra with
              | None => panic
              | Some parentExtra' =>
                  if (blockNumber =? 1)
                     || (Extra.EpochNumber (Extra.Checkpoint parentExtra')
                         =? Extra.EpochNumber (Extra.Checkpoint currentExtra'))
                  then
                    catchUp fuel' latestHeader (U64.incr blockNumber)
                      (Some currentHeader) (Some currentExtra') (Some currentExtra')
                  else
                    match parentHeader with
                    | None => panic
                    | Some parentHeader' =>
                        encodeAndSendCheckpoint parentHeader' parentExtra' true ;;;
                        catchUp fuel' latestHeader (U64.incr blockNumber)
                          (Some currentHeader) (Some currentExtra') (Some currentExtra')
                    end
              end
          end
      end
    else ret currentExtra.
Proof. destruct fuel; reflexivity. Qed.

Lemma incr_range (z : Z) : 0 <= U64.incr z < U64.modulus.
Proof.
  unfold U64.incr, U64.add, U64.wrap, U64.modulus.
  apply Z.mod_pos_bound. lia.
Qed.

Lemma incr_below (b n : Z) :
  0 <= b -> b < n -> n < U64.modulus -> U64.incr b = b + 1.
Proof.
  intros. unfold U64.incr, U64.add, U64.wrap. apply Z.mod_small. lia.
Qed.

(** *** Reachable worlds *)

Lemma moves_ret (w0 : W) {A} (a : A) : moves w0 (ret a).
Proof. intros m m' r H; inversion H; subst; auto. Qed.

Lemma moves_fail (w0 : W) {A} (e : error) : moves w0 (@fail W A e).
Proof. intros m m' r H; inversion H; subst; auto. Qed.

Lemma moves_panic (w0 : W) {A} : moves w0 (@panic W A).
Proof. intros m m' r H; inversion H; subst; auto. Qed.

Lemma moves_out_of_fuel (w0 : W) {A} : moves w0 (@out_of_fuel W A).
Proof. intros m m' r H; inversion H; subst; auto. Qed.

Lemma moves_pure (w0 : W) {A} (g : goret A) : moves w0 (pure g).
Proof. intros m m' r H; unfold pure in H; destruct g; inversion H; subst; auto. Qed.

Lemma moves_get_cm (w0 : W) : moves w0 get_cm.
Proof. intros m m' r H; inversion H; subst; auto. Qed.

Lemma moves_bind (w0 : W) {A B} (c : M W A) (k : A -> M W B) :
  moves w0 c -> (forall a, moves w0 (k a)) -> moves w0 (bind c k).
Proof.
  intros Hc Hk m m' r H Hr. unfold bind in H.
  destruct (c m) as [m1 [a | e | | ]] eqn:Hcm.
  - eapply Hk; [exact H |]. eapply Hc; eauto.
  - inversion H; subst. eapply Hc; eauto.
  - inversion H; subst. eapply Hc; eauto.
  - inversion H; subst. eapply Hc; eauto.
Qed.

Lemma moves_wrap_err (w0 : W) {A} (f : error -> error) (c : M W A) :
  moves w0 c -> moves w0 (wrap_err f c).
Proof.
  intros Hc m m' r H Hr. unfold wrap_err in H.
  destruct (c m) as [m1 [a | e | | ]] eqn:Hcm;
    inversion H; subst; eapply Hc; eauto.
Qed.

Lemma moves_GetHeaderByNumber (w0 : W) (n : Z) :
  moves w0 (blockchain_GetHeaderByNumber n).
Proof.
  intros m m' r H Hr. unfold blockchain_GetHeaderByNumber, call_total in H.
  destruct (GetHeaderByNumber n (world m)) as [w1 found] eqn:Hop.
  inversion H; subst; simpl.
  replace w1 with (perform (OpGetHeaderByNumber n) (world m))
    by (simpl; now rewrite Hop).
  now constructor.
Qed.

Lemma moves_GetValidators (w0 : W) (n : Z) :
  moves w0 (consensusBackend_GetValidators n).
Proof.
  intros m m' r H Hr. unfold consensusBackend_GetValidators, call in H.
  destruct (GetValidators n (world m)) as [w1 [a | e]] eqn:Hop;
    inversion H; subst; simpl;
    (replace w1 with (perform (OpGetValidators n) (world m))
      by (simpl; now rewrite Hop));
    now constructor.
Qed.

Lemma moves_Call (w0 : W) (from to : types.Address) (input : bytes) :
  moves w0 (rootChainRelayer_Call from to input).
Proof.
  intros m m' r H Hr. unfold rootChainRelayer_Call, call in H.
  destruct (Call from to input (world m)) as [w1 [a | e]] eqn:Hop;
    inversion H; subst; simpl;
    (replace w1 with (perform (OpCall from to input) (world m))
      by (simpl; now rewrite Hop));
    now constructor.
Qed.

Lemma moves_SendTransaction (w0 : W) (txn : ethgo.Transaction) (k : ethgo.Key) :
  moves w0 (rootChainRelayer_SendTransaction txn k).
Proof.
  intros m m' r H Hr. unfold rootChainRelayer_SendTransaction, call in H.
  destruct (SendTransaction txn k (world m)) as [w1 [a | e]] eqn:Hop;
    inversion H; subst; simpl;
    (replace w1 with (perform (OpSendTransaction txn k) (world m))
      by (simpl; now rewrite Hop));
    now constructor.
Qed.

Lemma moves_encodeAndSendCheckpoint (w0 : W) (header : types.Header)
    (extra : Extra.t) (isEndOfEpoch : bool) :
  moves w0 (encodeAndSendCheckpoint header extra isEndOfEpoch).
Proof.
  unfold encodeAndSendCheckpoint.
  apply moves_bind; [apply moves_get_cm | intros c].
  apply moves_bind.
  { destruct isEndOfEpoch; [apply moves_GetValidators | apply moves_ret]. }
  intros nextEpochValidators.
  apply moves_bind; [apply moves_wrap_err, moves_pure | intros input].
  apply moves_bind; [apply moves_SendTransaction | intros receipt].
  destruct (ethgo.Status receipt =? ReceiptFailed);
    [apply moves_fail | apply moves_ret].
Qed.

Lemma moves_getLatestCheckpointBlock (w0 : W) :
  moves w0 getLatestCheckpointBlock.
Proof.
  unfold getLatestCheckpointBlock.
  apply moves_bind; [apply moves_wrap_err, moves_pure | intros input].
  apply moves_bind; [apply moves_get_cm | intros c].
  apply moves_bind; [apply moves_wrap_err, moves_Call | intros raw].
  apply moves_wrap_err, moves_pure.
Qed.

Lemma moves_initialParent (w0 : W) (latestHeader : types.Header) (n : Z) :
  moves w0 (initialParent latestHeader n).
Proof.
  unfold initialParent.
  destruct (n <? types.Number latestHeader); [| apply moves_ret].
  apply moves_bind; [apply moves_GetHeaderByNumber | intros [h |]].
  - apply moves_bind; [apply moves_pure | intros x; apply moves_ret].
  - apply moves_fail.
Qed.

(** The walk of the catch-up loop ends at [latestHeader.Number]: when
    the loop returns normally and has run at all, the extra it leaves is
    the one decoded from the header the chain serves at that number. *)
Lemma catchUp_last_extra (w0 : W) (latestHeader : types.Header) :
  0 <= types.Number latestHeader < U64.modulus ->
  (forall w,
      reachable w0 w ->
      forall w' h,
        GetHeaderByNumber (types.Number latestHeader) w = (w', Some h) ->
        types.ExtraData h = types.ExtraData latestHeader) ->
  forall (fuel : nat) (blockNumber : Z)
         (parentHeader : option types.Header)
         (parentExtra currentExtra : option Extra.t)
         (m m' : Machine W) (left : option Extra.t),
    0 <= blockNumber ->
    reachable w0 (world m) ->
    catchUp fuel latestHeader blockNumber parentHeader parentExtra currentExtra m
    = (m', Ok left) ->
    (left = currentExtra /\ types.Number latestHeader < blockNumber)
    \/ (exists extra,
           left = Some extra
           /\ GetIbftExtra (types.ExtraData latestHeader) = Val extra).
Proof.
  intros Hrange Hserve.
  induction fuel as [| fuel IH];
    intros blockNumber parentHeader parentExtra currentExtra m m' left Hb Hreach Hrun;
    rewrite catchUp_unfold in Hrun;
    destruct (blockNumber <=? types.Number latestHeader) eqn:Hle.
  - discriminate Hrun.
  - apply Z.leb_gt in Hle. inversion Hrun; subst. left. split; [reflexivity | lia].
  - apply Z.leb_le in Hle.
    unfold bind at 1 in Hrun.
    destruct (blockchain_GetHeaderByNumber blockNumber m) as [m0 r0] eqn:Hlookup.
    assert (Hreach0 : reachable w0 (world m0))
      by (eapply moves_GetHeaderByNumber; eauto).
    unfold blockchain_GetHeaderByNumber, call_total in Hlookup.
    destruct (GetHeaderByNumber blockNumber (world m)) as [w1 found] eqn:Hh.
    inversion Hlookup; subst m0 r0; clear Hlookup.
    destruct found as [h |]; [| discriminate Hrun].
    unfold bind at 1, pure in Hrun.
    destruct (GetIbftExtra (types.ExtraData h)) as [x | e] eqn:Hx;
      [| discriminate Hrun].
    destruct parentExtra as [pe |]; [| discriminate Hrun].
    assert (Hnext :
              forall m1,
                reachable w0 (world m1) ->
                catchUp fuel latestHeader (U64.incr blockNumber)
                  (Some h) (Some x) (Some x) m1 = (m', Ok left) ->
                exists extra,
                  left = Some extra
                  /\ GetIbftExtra (types.ExtraData latestHeader) = Val extra).
    { intros m1 Hreach1 Hrec.
      apply IH in Hrec; [| apply incr_range | exact Hreach1].
      destruct Hrec as [[Hleft Hgt] | Hex]; [| exact Hex].
      exists x. split; [exact Hleft |].
      assert (blockNumber = types.Number latestHeader).
      { destruct (Z.eq_dec blockNumber (types.Number latestHeader)) as [| Hne];
          [assumption |].
        rewrite (incr_below blockNumber (types.Number latestHeader)) in Hgt; lia. }
      subst blockNumber.
      rewrite <- (Hserve _ Hreach _ _ Hh). exact Hx. }
    right.
    destruct ((blockNumber =? 1)
              || (Extra.EpochNumber (Extra.Checkpoint pe)
                  =? Extra.EpochNumber (Extra.Checkpoint x))).
    + eapply Hnext; [exact Hreach0 | exact Hrun].
    + destruct parentHeader as [ph |]; [| discriminate Hrun].
      unfold bind at 1 in Hrun.
      destruct (encodeAndSendCheckpoint ph pe true _) as [m2 [[] | e | | ]] eqn:Hsend;
        try discriminate Hrun.
      eapply Hnext; [| exact Hrun].
      eapply moves_encodeAndSendCheckpoint; eauto.
  - apply Z.leb_gt in Hle. inversion Hrun; subst. left. split; [reflexivity | lia].
Qed.

(** C10, amended: when the blockchain backend serves, at
    [latestHeader.Number], a header that carries [latestHeader]'s extra
    data (in every world that collaborator operations lead to), every
    successful run of [submitCheckpoint] makes its final submission for
    [latestHeader] with the metadata decoded from [latestHeader]'s own
    extra data: the loop either left no extra, and the extra is decoded
    from [latestHeader] itself, or left exactly that extra. *)
Theorem submitCheckpoint_final_extra
    (fuel : nat) (latestHeader : types.Header) (isEndOfEpoch : bool)
    (m m' : Machine W) :
  0 <= types.Number latestHeader < U64.modulus ->
  (forall w,
      reachable (world m) w ->
      forall w' h,
        GetHeaderByNumber (types.Number latestHeader) w = (w', Some h) ->
        types.ExtraData h = types.ExtraData latestHeader) ->
  submitCheckpoint fuel latestHeader isEndOfEpoch m = (m', Ok tt) ->
  exists m1 left extra,
    submitPending fuel latestHeader m = (m1, Ok left)
    /\ (left = None \/ left = Some extra)
    /\ GetIbftExtra (types.ExtraData latestHeader) = Val extra
    /\ finalExtra latestHeader left m1 = (m1, Ok extra)
    /\ encodeAndSendCheckpoint latestHeader extra isEndOfEpoch m1 = (m', Ok tt).
Proof.
  intros Hrange Hserve Hrun. unfold submitCheckpoint in Hrun.
  unfold bind at 1 in Hrun.
  destruct (submitPending fuel latestHeader m) as [m1 [left | e | | ]] eqn:Hpending;
    try discriminate Hrun.
  unfold bind at 1 in Hrun.
  destruct (finalExtra latestHeader left m1) as [m2 [extra | e | | ]] eqn:Hfinal;
    try discriminate Hrun.
  exists m1, left, extra.
  assert (Hleft : left = None \/
                  exists x, left = Some x
                            /\ GetIbftExtra (types.ExtraData latestHeader) = Val x).
  { unfold submitPending in Hpending. unfold bind at 1 in Hpending.
    destruct (getLatestCheckpointBlock m) as [m3 [last | e | | ]] eqn:Hlatest;
      try discriminate Hpending.
    unfold bind at 1 in Hpending.
    destruct (initialParent latestHeader (U64.incr last) m3)
      as [m4 [parent | e | | ]] eqn:Hparent; try discriminate Hpending.
    apply (catchUp_last_extra (world m) latestHeader Hrange Hserve) in Hpending;
      [| apply incr_range |].
    - destruct Hpending as [[Hl _] | Hex]; [now left | now right].
    - eapply moves_initialParent; [exact Hparent |].
      eapply moves_getLatestCheckpointBlock; [exact Hlatest |].
      constructor. }
  destruct Hleft as [-> | [x [-> Hx]]].
  - unfold finalExtra, pure in Hfinal.
    destruct (GetIbftExtra (types.ExtraData latestHeader)) as [x | e] eqn:Hx;
      inversion Hfinal; subst.
    repeat split; auto.
    unfold finalExtra, pure. now rewrite Hx.
  - unfold finalExtra, ret in Hfinal. inversion Hfinal; subst.
    repeat split; auto.
Qed.

(** X20: the tree of a successful [GenerateExitProof].  The checkpoint
    block is the [checkpointBlock] entry of the decoded reply to the
    root-chain call made for the exit event's block number, a reply whose
    [isFound] entry is [true]; the tree is built over the events the
    store returns for the exit's epoch up to that block, read in the world
    the root-chain call left; and the proof and the leaf index are those
    of the exit's encoding in that tree. *)
Lemma GenerateExitProof_tree (exitID : Z) (m m' : Machine W) (proof : Proof.t) :
  GenerateExitProof exitID m = (m', Ok proof) ->
  exists w1 exitEvent input w2 resp raw checkpointBlockMap checkpointBlock
         exitEvents tree e leafIndex,
    getExitEvent exitID (world m) = (w1, Val exitEvent)
    /\ GetCheckpointBlock_EncodeAbi (BlockNumber exitEvent) = Val input
    /\ Call ethgo.ZeroAddress (checkpointManagerAddr (cm m)) input w1
       = (w2, Val resp)
    /\ DecodeHex resp = Val raw
    /\ GetCheckpointBlockABIResponse_Decode raw = Val (VMap checkpointBlockMap)
    /\ map_lookup "isFound" checkpointBlockMap = Some (VBool true)
    /\ map_lookup "checkpointBlock" checkpointBlockMap
       = Some (VBigInt checkpointBlock)
    /\ getExitEventsForProof (EpochNumber exitEvent)
         (BigInt_Uint64 checkpointBlock) w2 = (world m', Val exitEvents)
    /\ createExitTree exitEvents = Val tree
    /\ L2StateSyncedEvent_Encode (L2StateSyncedEvent exitEvent) = Val e
    /\ MerkleTree_LeafIndex tree e = Val leafIndex
    /\ MerkleTree_GenerateProof tree e = Val (Proof.Data proof)
    /\ Proof.Metadata proof
       = [("LeafIndex", Proof.MLeafIndex leafIndex);
          ("ExitEvent", Proof.MExitEvent exitEvent);
          ("CheckpointBlock", Proof.MCheckpointBlock checkpointBlock)].
Proof.
  unfold GenerateExitProof, store_getExitEvent, rootChainRelayer_Call,
    store_getExitEventsForProof.
  run_step. simpl.
  destruct (getExitEvent exitID (world m)) as [w1 [exitEvent | e0]] eqn:Hget;
    simpl; [| discriminate].
  destruct (GetCheckpointBlock_EncodeAbi (BlockNumber exitEvent))
    as [input | e0] eqn:Hinput; simpl; [| discriminate].
  destruct (Call ethgo.ZeroAddress (checkpointManagerAddr (cm m)) input w1)
    as [w2 [resp | e0]] eqn:Hcall; simpl; [| discriminate].
  destruct (DecodeHex resp) as [raw | e0] eqn:Hhex; simpl; [| discriminate].
  destruct (GetCheckpointBlockABIResponse_Decode raw) as [[ | | mp | ] | ]
    eqn:Hdec; simpl; try discriminate.
  destruct (map_lookup "isFound" mp) as [[[] | | | ] | ] eqn:Hfound; simpl;
    try discriminate.
  destruct (map_lookup "checkpointBlock" mp) as [[ | checkpointBlock | | ] | ]
    eqn:Hblock; simpl; try discriminate.
  destruct (L2StateSyncedEvent_Encode (L2StateSyncedEvent exitEvent)) as [e | ]
    eqn:Henc; simpl; [| discriminate].
  destruct (getExitEventsForProof (EpochNumber exitEvent)
              (BigInt_Uint64 checkpointBlock) w2)
    as [w3 [exitEvents | e0]] eqn:Hread; simpl; [| discriminate].
  destruct (createExitTree exitEvents) as [tree | ] eqn:Htree; simpl;
    [| discriminate].
  destruct (MerkleTree_LeafIndex tree e) as [leafIndex | ] eqn:Hleaf; simpl;
    [| discriminate].
  destruct (MerkleTree_GenerateProof tree e) as [data | ] eqn:Hproof; simpl;
    [| discriminate].
  intros H; inversion H; subst; simpl.
  exists w1, exitEvent, input, w2, resp, raw, mp, checkpointBlock,
    exitEvents, tree, e, leafIndex.
  repeat split; auto.
Qed.

End Properties.

(** ** The catch-up walk over a stretch of served headers *)

Section CatchUp.
Context {codec : Codec} {W : Type} {backend : Backend W}.
Variables (w0 : W) (c : checkpointManager).
Variables (hdr : Z -> types.Header) (ext : Z -> Extra.t).
Variables (vals : Z -> validator.AccountSet).
Variables (sigs : Z -> BlsSignature) (bigs : Z -> Z * Z).
Variable enc : SubmitCheckpointManagerFn -> bytes.
Variables lo hi : Z.

Hypothesis Hlo : 0 <= lo.
Hypothesis Hhi : hi < U64.max.
Hypothesis Hhdr :
  forall n w, lo <= n <= hi -> reachable w0 w ->
              exists w', GetHeaderByNumber n w = (w', Some (hdr n)).
Hypothesis Hnum : forall n, lo <= n <= hi -> types.Number (hdr n) = n.
Hypothesis Hext :
  forall n, lo <= n <= hi -> GetIbftExtra (types.ExtraData (hdr n)) = Val (ext n).
Hypothesis Hvals :
  forall n w, lo <= n <= hi -> reachable w0 w ->
              exists w', GetValidators n w = (w', Val (vals n)).
Hypothesis Hsig :
  forall n, lo <= n <= hi ->
            UnmarshalSignature (Extra.AggregatedSignature (Extra.Committed (ext n)))
            = Val (sigs n).
Hypothesis Hbig : forall n, lo <= n <= hi -> ToBigInt (sigs n) = Val (bigs n).
Hypothesis Henc : forall fn, SubmitCheckpoint_EncodeAbi fn = Val (enc fn).
Hypothesis Hsend :
  forall txn k w, reachable w0 w ->
                  exists w' receipt,
                    SendTransaction txn k w = (w', Val receipt)
                    /\ ethgo.Status receipt <> ReceiptFailed.

Lemma incr_served (n : Z) : lo <= n <= hi -> U64.incr n = n + 1.
Proof.
  intros. unfold U64.incr, U64.add, U64.wrap. apply Z.mod_small.
  unfold U64.max in Hhi. lia.
Qed.

(** Sending the checkpoint of an epoch-ending block [n]. *)
Lemma send_end_of_epoch (n : Z) (m : Machine W) :
  lo <= n <= hi -> cm m = c -> reachable w0 (world m) ->
  exists m',
    encodeAndSendCheckpoint (hdr n) (ext n) true m = (m', Ok tt)
    /\ cm m' = c
    /\ reachable w0 (world m')
    /\ trace m'
       = (trace m
            ++ [(OpGetValidators n, None);
                (OpSendTransaction
                   (checkpointTxn c enc (hdr n) (ext n) (bigs n) (vals n))
                   (key c), None)])%list.
Proof.
  intros Hn Hc Hr.
  destruct (Hvals n (world m) Hn Hr) as [w1 Hv].
  assert (Hr1 : reachable w0 w1).
  { replace w1 with (perform (OpGetValidators n) (world m))
      by (simpl; now rewrite Hv).
    now constructor. }
  destruct (Hsend (checkpointTxn c enc (hdr n) (ext n) (bigs n) (vals n))
              (key c) w1 Hr1) as [w2 [receipt [Hs Hstatus]]].
  assert (Hr2 : reachable w0 w2).
  { replace w2 with
      (perform (OpSendTransaction
                  (checkpointTxn c enc (hdr n) (ext n) (bigs n) (vals n)) (key c)) w1)
      by (simpl; now rewrite Hs).
    now constructor. }
  apply Z.eqb_neq in Hstatus.
  eexists. unfold encodeAndSendCheckpoint, consensusBackend_GetValidators,
    rootChainRelayer_SendTransaction, abiEncodeCheckpointBlock.
  run_step. simpl.
  rewrite (Hnum n Hn), Hv. simpl.
  rewrite (Hsig n Hn), (Hbig n Hn), Henc. simpl.
  unfold checkpointTxn in Hs. rewrite (Hnum n Hn) in Hs.
  rewrite Hc. rewrite Hs. simpl. rewrite Hstatus.
  repeat split; simpl; auto.
  unfold checkpointTxn. rewrite (Hnum n Hn), <- app_assoc. reflexivity.
Qed.

(** One iteration of the loop. *)
Lemma catchUp_step (fuel : nat) (b p : Z) (ce : option Extra.t) (m : Machine W) :
  lo <= b <= hi -> lo <= p <= hi -> cm m = c -> reachable w0 (world m) ->
  exists m1,
    cm m1 = c
    /\ reachable w0 (world m1)
    /\ trace m1 = (trace m ++ [(OpGetHeaderByNumber b, None)])%list
    /\ catchUp (S fuel) (hdr hi) b (Some (hdr p)) (Some (ext p)) ce m
       = (if (b =? 1)
             || (Extra.EpochNumber (Extra.Checkpoint (ext p))
                 =? Extra.EpochNumber (Extra.Checkpoint (ext b)))
          then catchUp fuel (hdr hi) (b + 1)
                 (Some (hdr b)) (Some (ext b)) (Some (ext b))
          else
            encodeAndSendCheckpoint (hdr p) (ext p) true ;;;
            catchUp fuel (hdr hi) (b + 1)
              (Some (hdr b)) (Some (ext b)) (Some (ext b))) m1.
Proof.
  intros Hb Hp Hc Hr.
  destruct (Hhdr b (world m) Hb Hr) as [w1 Hh].
  exists (logged m w1 (OpGetHeaderByNumber b) None).
  repeat split; auto.
  - simpl. replace w1 with (perform (OpGetHeaderByNumber b) (world m))
      by (simpl; now rewrite Hh).
    now constructor.
  - rewrite catchUp_unfold.
    rewrite (Hnum hi) by lia.
    replace (b <=? hi) with true by (symmetry; apply Z.leb_le; lia).
    unfold bind at 1, blockchain_GetHeaderByNumber, call_total. rewrite Hh.
    unfold bind at 1, pure. rewrite (Hext b Hb).
    rewrite (incr_served b Hb). reflexivity.
Qed.

(** A stretch of [S k] blocks of the parent's epoch: nothing is sent,
    and the parent context moves to the last of them. *)
Lemma catchUp_same_epoch (k : nat) :
  forall (fuel : nat) (b p : Z) (ce : option Extra.t) (m : Machine W),
    lo <= b -> b + Z.of_nat k <= hi -> lo <= p <= hi ->
    (forall n, b <= n <= b + Z.of_nat k ->
               Extra.EpochNumber (Extra.Checkpoint (ext n))
               = Extra.EpochNumber (Extra.Checkpoint (ext p))) ->
    cm m = c -> reachable w0 (world m) ->
    exists m' t,
      cm m' = c
      /\ reachable w0 (world m')
      /\ trace m' = (trace m ++ t)%list
      /\ sentTransactions t = []
      /\ fetchedValidators t = []
      /\ catchUp (S k + fuel) (hdr hi) b (Some (hdr p)) (Some (ext p)) ce m
         = catchUp fuel (hdr hi) (b + Z.of_nat k + 1)
             (Some (hdr (b + Z.of_nat k))) (Some (ext (b + Z.of_nat k)))
             (Some (ext (b + Z.of_nat k))) m'.
Proof.
  induction k as [| k IH]; intros fuel b p ce m Hb Hk Hp Hep Hc Hr.
  - destruct (catchUp_step fuel b p ce m) as [m1 [Hc1 [Hr1 [Ht1 Hrun]]]];
      try assumption; try lia.
    exists m1, [(OpGetHeaderByNumber b, None)].
    repeat split; auto.
    simpl Z.of_nat. rewrite Z.add_0_r. simpl plus. rewrite Hrun.
    rewrite (Hep b) by lia. rewrite Z.eqb_refl, orb_true_r. reflexivity.
  - destruct (catchUp_step (S k + fuel) b p ce m) as [m1 [Hc1 [Hr1 [Ht1 Hrun]]]];
      try assumption; try lia.
    destruct (IH fuel (b + 1) b (Some (ext b)) m1) as [m' [t [Hc' [Hr' [Ht' [Hs' [Hv' Hrun']]]]]]];
      try assumption; try lia.
    { intros n Hn. rewrite (Hep n) by lia. rewrite (Hep b) by lia. reflexivity. }
    exists m', ((OpGetHeaderByNumber b, None) :: t).
    repeat split; auto.
    + rewrite Ht', Ht1, <- app_assoc. reflexivity.
    + change (S (S k) + fuel)%nat with (S (S k + fuel)). rewrite Hrun.
      rewrite (Hep b) by lia. rewrite Z.eqb_refl, orb_true_r.
      rewrite Hrun'.
      replace (b + 1 + Z.of_nat k + 1) with (b + Z.of_nat (S k) + 1) by lia.
      replace (b + 1 + Z.of_nat k) with (b + Z.of_nat (S k)) by lia.
      reflexivity.
Qed.

(** The first block of a new epoch: the checkpoint of the parent, the
    last block of the epoch gone by, is sent as an end-of-epoch one. *)
Lemma catchUp_boundary (fuel : nat) (b p : Z) (ce : option Extra.t) (m : Machine W) :
  lo <= b <= hi -> lo <= p <= hi -> b <> 1 ->
  Extra.EpochNumber (Extra.Checkpoint (ext p))
  <> Extra.EpochNumber (Extra.Checkpoint (ext b)) ->
  cm m = c -> reachable w0 (world m) ->
  exists m' t,
    cm m' = c
    /\ reachable w0 (world m')
    /\ trace m' = (trace m ++ t)%list
    /\ sentTransactions t = [checkpointTxn c enc (hdr p) (ext p) (bigs p) (vals p)]
    /\ fetchedValidators t = [p]
    /\ catchUp (S fuel) (hdr hi) b (Some (hdr p)) (Some (ext p)) ce m
       = catchUp fuel (hdr hi) (b + 1)
           (Some (hdr b)) (Some (ext b)) (Some (ext b)) m'.
Proof.
  intros Hb Hp Hb1 Hne Hc Hr.
  destruct (catchUp_step fuel b p ce m) as [m1 [Hc1 [Hr1 [Ht1 Hrun]]]];
    try assumption.
  destruct (send_end_of_epoch p m1 Hp Hc1 Hr1) as [m' [Hsent [Hc' [Hr' Ht']]]].
  exists m'. eexists. repeat split; auto.
  - rewrite Ht', Ht1, <- app_assoc. reflexivity.
  - reflexivity.
  - reflexivity.
  - rewrite Hrun.
    apply Z.eqb_neq in Hb1, Hne. rewrite Hb1, Hne. simpl.
    unfold bind at 1. rewrite Hsent. reflexivity.
Qed.

Lemma catchUp_exit (fuel : nat) (b : Z) (ph : option types.Header)
    (pe ce : option Extra.t) (m : Machine W) :
  lo <= hi -> hi < b ->
  catchUp fuel (hdr hi) b ph pe ce m = (m, Ok ce).
Proof.
  intros Hlh Hb. rewrite catchUp_unfold. rewrite (Hnum hi) by lia.
  replace (b <=? hi) with false by (symmetry; apply Z.leb_gt; lia).
  reflexivity.
Qed.

End CatchUp.

Section CatchUpExample.
Context {codec : Codec} {W : Type} {backend : Backend W}.

Lemma sentTransactions_app (t1 t2 : list Called) :
  sentTransactions (t1 ++ t2) = (sentTransactions t1 ++ sentTransactions t2)%list.
Proof. apply flat_map_app. Qed.

Lemma fetchedValidators_app (t1 t2 : list Called) :
  fetchedValidators (t1 ++ t2) = (fetchedValidators t1 ++ fetchedValidators t2)%list.
Proof. apply flat_map_app. Qed.

Lemma getLatestCheckpointBlock_ok (m : Machine W) (input : bytes) (w1 : W)
    (raw : string) (n : Z) :
  currentCheckpointBlockNum_Encode = Val input ->
  Call (ethgo.KeyAddress (key (cm m))) (checkpointManagerAddr (cm m)) input (world m)
  = (w1, Val raw) ->
  ParseUint raw = Val n ->
  getLatestCheckpointBlock m
  = (logged m w1
       (OpCall (ethgo.KeyAddress (key (cm m))) (checkpointManagerAddr (cm m)) input)
       None,
     Ok n).
Proof.
  intros Henc Hcall Hparse.
  unfold getLatestCheckpointBlock, rootChainRelayer_Call. run_step.
  rewrite Henc. simpl. rewrite Hcall. simpl. rewrite Hparse. reflexivity.
Qed.

(** C1: the root chain's latest checkpoint block is 10, the chain
    serves the headers of blocks 11 to 40, blocks 11 to 15 belong to
    epoch [e1], 16 to 25 to [e2] and 26 to 40 to [e3], and every call
    succeeds.  Then [submitCheckpoint] on the header of block 40, as an
    end-of-epoch block, returns nil after sending exactly three
    transactions: the checkpoints of blocks 15, 25 and 40, in this order,
    with epoch numbers [e1], [e2] and [e3]; for each of them the next
    validator set is fetched at that block and is part of the payload. *)
Theorem submitCheckpoint_catch_up
    (m : Machine W) (fuel : nat)
    (hdr : Z -> types.Header) (ext : Z -> Extra.t)
    (vals : Z -> validator.AccountSet)
    (sigs : Z -> BlsSignature) (bigs : Z -> Z * Z)
    (enc : SubmitCheckpointManagerFn -> bytes)
    (input : bytes) (raw : string) (e1 e2 e3 : Z) :
  currentCheckpointBlockNum_Encode = Val input ->
  (forall w, reachable (world m) w ->
             exists w',
               Call (ethgo.KeyAddress (key (cm m))) (checkpointManagerAddr (cm m))
                 input w = (w', Val raw)) ->
  ParseUint raw = Val 10 ->
  (forall n w, 11 <= n <= 40 -> reachable (world m) w ->
               exists w', GetHeaderByNumber n w = (w', Some (hdr n))) ->
  (forall n, 11 <= n <= 40 -> types.Number (hdr n) = n) ->
  (forall n, 11 <= n <= 40 -> GetIbftExtra (types.ExtraData (hdr n)) = Val (ext n)) ->
  (forall n, 11 <= n <= 15 -> Extra.EpochNumber (Extra.Checkpoint (ext n)) = e1) ->
  (forall n, 16 <= n <= 25 -> Extra.EpochNumber (Extra.Checkpoint (ext n)) = e2) ->
  (forall n, 26 <= n <= 40 -> Extra.EpochNumber (Extra.Checkpoint (ext n)) = e3) ->
  e1 <> e2 -> e2 <> e3 ->
  (forall n w, 11 <= n <= 40 -> reachable (world m) w ->
               exists w', GetValidators n w = (w', Val (vals n))) ->
  (forall n, 11 <= n <= 40 ->
             UnmarshalSignature (Extra.AggregatedSignature (Extra.Committed (ext n)))
             = Val (sigs n)) ->
  (forall n, 11 <= n <= 40 -> ToBigInt (sigs n) = Val (bigs n)) ->
  (forall fn, SubmitCheckpoint_EncodeAbi fn = Val (enc fn)) ->
  (forall txn k w, reachable (world m) w ->
                   exists w' receipt,
                     SendTransaction txn k w = (w', Val receipt)
                     /\ ethgo.Status receipt <> ReceiptFailed) ->
  (29 <= fuel)%nat ->
  let payload n :=
    submitFn n (types.HeaderHash (hdr n)) (ext n) (bigs n) (vals n) in
  exists m' t,
    submitCheckpoint fuel (hdr 40) true m = (m', Ok tt)
    /\ trace m' = (trace m ++ t)%list
    /\ sentTransactions t
       = map (fun n =>
                ethgo.mkTransaction (checkpointManagerAddr (cm m))
                  (enc (payload n)) ethgo.TransactionDynamicFee)
           [15; 25; 40]
    /\ fetchedValidators t = [15; 25; 40]
    /\ map (fun n => (contractsapi.BlockNumber (Checkpoint (payload n)),
                      contractsapi.Epoch (Checkpoint (payload n)),
                      NewValidatorSet (payload n)))
         [15; 25; 40]
       = [(15, e1, ToAPIBinding (vals 15));
          (25, e2, ToAPIBinding (vals 25));
          (40, e3, ToAPIBinding (vals 40))].
Proof.
  intros Hinput Hcall Hparse Hhdr Hnum Hext He1 He2 He3 Hne12 Hne23
    Hvals Hsig Hbig Henc Hsend Hfuel payload.
  assert (Hhi : 40 < U64.max) by (vm_compute; reflexivity).
  assert (Hlo : 0 <= 11) by lia.
  pose proof (catchUp_same_epoch (world m) (cm m) hdr ext 11 40 Hlo Hhi Hhdr Hnum Hext)
    as Hsame.
  pose proof (catchUp_boundary (world m) (cm m) hdr ext vals sigs bigs enc 11 40
                Hlo Hhi Hhdr Hnum Hext Hvals Hsig Hbig Henc Hsend) as Hbound.
  pose proof (send_end_of_epoch (world m) (cm m) hdr ext vals sigs bigs enc 11 40
                Hnum Hvals Hsig Hbig Henc Hsend) as Hfinal.
  (* the cursor *)
  destruct (Hcall (world m) (reachable_refl _)) as [w1 Hc1].
  pose proof (getLatestCheckpointBlock_ok m input w1 raw 10 Hinput Hc1 Hparse)
    as Hlatest.
  set (m1 := logged m w1
               (OpCall (ethgo.KeyAddress (key (cm m)))
                  (checkpointManagerAddr (cm m)) input) None) in *.
  assert (Hr1 : reachable (world m) (world m1)).
  { eapply moves_getLatestCheckpointBlock; [exact Hlatest | constructor]. }
  (* the initial parent *)
  destruct (Hhdr 11 (world m1) ltac:(lia) Hr1) as [w2 Hh11].
  set (m2 := logged m1 w2 (OpGetHeaderByNumber 11) None).
  assert (Hparent : initialParent (hdr 40) (U64.incr 10) m1
                    = (m2, Ok (Some (hdr 11), Some (ext 11)))).
  { unfold initialParent. rewrite (Hnum 40) by lia.
    change (U64.incr 10) with 11. change (11 <? 40) with true.
    unfold bind at 1, blockchain_GetHeaderByNumber, call_total. rewrite Hh11.
    unfold bind, pure, ret. rewrite (Hext 11) by lia. reflexivity. }
  assert (Hr2 : reachable (world m) (world m2)).
  { eapply moves_initialParent; [exact Hparent | exact Hr1]. }
  (* blocks 12 to 15, epoch e1 *)
  destruct (Hsame 3%nat (1 + (9 + (1 + (14 + (fuel - 29)))))%nat 12 11 None m2)
    as [m3 [t3 [Hc3 [Hr3 [Ht3 [Hs3 [Hv3 Hrun3]]]]]]];
    try lia; try reflexivity; try assumption.
  { intros n Hn. rewrite He1, He1 by lia. reflexivity. }
  change (12 + Z.of_nat 3 + 1) with 16 in Hrun3.
  change (12 + Z.of_nat 3) with 15 in Hrun3.
  (* block 16 opens epoch e2: the checkpoint of block 15 *)
  destruct (Hbound (9 + (1 + (14 + (fuel - 29))))%nat 16 15 (Some (ext 15)) m3)
    as [m4 [t4 [Hc4 [Hr4 [Ht4 [Hs4 [Hv4 Hrun4]]]]]]];
    try lia; try assumption.
  { rewrite He1, He2 by lia. exact Hne12. }
  change (16 + 1) with 17 in Hrun4.
  (* blocks 17 to 25, epoch e2 *)
  destruct (Hsame 8%nat (1 + (14 + (fuel - 29)))%nat 17 16 (Some (ext 16)) m4)
    as [m5 [t5 [Hc5 [Hr5 [Ht5 [Hs5 [Hv5 Hrun5]]]]]]];
    try lia; try assumption.
  { intros n Hn. rewrite He2, He2 by lia. reflexivity. }
  change (17 + Z.of_nat 8 + 1) with 26 in Hrun5.
  change (17 + Z.of_nat 8) with 25 in Hrun5.
  (* block 26 opens epoch e3: the checkpoint of block 25 *)
  destruct (Hbound (14 + (fuel - 29))%nat 26 25 (Some (ext 25)) m5)
    as [m6 [t6 [Hc6 [Hr6 [Ht6 [Hs6 [Hv6 Hrun6]]]]]]];
    try lia; try assumption.
  { rewrite He2, He3 by lia. exact Hne23. }
  change (26 + 1) with 27 in Hrun6.
  (* blocks 27 to 40, epoch e3 *)
  destruct (Hsame 13%nat (fuel - 29)%nat 27 26 (Some (ext 26)) m6)
    as [m7 [t7 [Hc7 [Hr7 [Ht7 [Hs7 [Hv7 Hrun7]]]]]]];
    try lia; try assumption.
  { intros n Hn. rewrite He3, He3 by lia. reflexivity. }
  change (27 + Z.of_nat 13 + 1) with 41 in Hrun7.
  change (27 + Z.of_nat 13) with 40 in Hrun7.
  pose proof (catchUp_exit hdr 11 40 Hnum (fuel - 29)%nat 41
                (Some (hdr 40)) (Some (ext 40)) (Some (ext 40)) m7
                ltac:(lia) ltac:(lia)) as Hexit.
  rewrite Hexit in Hrun7.
  (* the checkpoint of block 40 *)
  destruct (Hfinal 40 m7 ltac:(lia) Hc7 Hr7) as [m8 [Hsent8 [Hc8 [Hr8 Ht8]]]].
  exists m8.
  exists ([(OpCall (ethgo.KeyAddress (key (cm m))) (checkpointManagerAddr (cm m)) input,
            None);
           (OpGetHeaderByNumber 11, None)]
            ++ t3 ++ t4 ++ t5 ++ t6 ++ t7
            ++ [(OpGetValidators 40, None);
                (OpSendTransaction
                   (checkpointTxn (cm m) enc (hdr 40) (ext 40) (bigs 40) (vals 40))
                   (key (cm m)), None)])%list.
  split; [| split; [| split; [| split]]].
  - assert (Hpending : submitPending fuel (hdr 40) m = (m7, Ok (Some (ext 40)))).
    { unfold submitPending.
      rewrite (bind_ok _ _ _ _ _ Hlatest).
      rewrite (bind_ok _ _ _ _ _ Hparent). simpl fst. simpl snd.
      change (U64.incr (U64.incr 10)) with 12.
      replace fuel
        with (S 3 + (1 + (9 + (1 + (14 + (fuel - 29))))))%nat at 1 by lia.
      rewrite Hrun3.
      change (1 + (9 + (1 + (14 + (fuel - 29)))))%nat
        with (S (9 + (1 + (14 + (fuel - 29)))))%nat.
      rewrite Hrun4.
      change (9 + (1 + (14 + (fuel - 29))))%nat
        with (S 8 + (1 + (14 + (fuel - 29))))%nat.
      rewrite Hrun5.
      change (1 + (14 + (fuel - 29)))%nat with (S (14 + (fuel - 29)))%nat.
      rewrite Hrun6.
      change (14 + (fuel - 29))%nat with (S 13 + (fuel - 29))%nat.
      exact Hrun7. }
    unfold submitCheckpoint.
    rewrite (bind_ok _ _ _ _ _ Hpending).
    unfold finalExtra. rewrite bind_ret_l. exact Hsent8.
  - rewrite Ht8, Ht7, Ht6, Ht5, Ht4, Ht3. unfold m2, m1, logged.
    cbn [trace]. repeat rewrite <- app_assoc. reflexivity.
  - rewrite !sentTransactions_app, Hs3, Hs4, Hs5, Hs6, Hs7.
    unfold checkpointTxn, payload. cbn.
    rewrite !Hnum by lia. reflexivity.
  - rewrite !fetchedValidators_app, Hv3, Hv4, Hv5, Hv6, Hv7. reflexivity.
  - unfold payload, submitFn. simpl.
    rewrite (He1 15), (He2 25), (He3 40) by lia. reflexivity.
Qed.

End CatchUpExample.

(** ** Sorting by ID *)

Section Sorting.

Lemma insertByID_perm (e : ExitEvent) (l : list ExitEvent) :
  Permutation (insertByID e l) (e :: l).
Proof.
  induction l as [| x l IH]; simpl.
  - apply Permutation_refl.
  - destruct (ExitEvent_ID x <? ExitEvent_ID e).
    + eapply perm_trans; [apply perm_skip, IH | apply perm_swap].
    + apply Permutation_refl.
Qed.

Lemma sortExitEvents_perm (l : list ExitEvent) :
  Permutation (sortExitEvents l) l.
Proof.
  induction l as [| e l IH]; simpl.
  - constructor.
  - eapply perm_trans; [apply insertByID_perm | now apply perm_skip].
Qed.

Lemma insertByID_sorted (e : ExitEvent) (l : list ExitEvent) :
  StronglySorted ID_lt l ->
  ~ In (ExitEvent_ID e) (map ExitEvent_ID l) ->
  StronglySorted ID_lt (insertByID e l).
Proof.
  induction l as [| x l IH]; simpl; intros Hs Hnin.
  - repeat constructor.
  - apply StronglySorted_inv in Hs. destruct Hs as [Hs Hall].
    destruct (ExitEvent_ID x <? ExitEvent_ID e) eqn:Hlt.
    + apply Z.ltb_lt in Hlt. constructor.
      * apply IH; [assumption | tauto].
      * eapply Permutation_Forall;
          [apply Permutation_sym, insertByID_perm |].
        constructor; assumption.
    + apply Z.ltb_ge in Hlt.
      assert (Hex : ExitEvent_ID e < ExitEvent_ID x) by lia.
      constructor.
      * constructor; assumption.
      * constructor; [exact Hex |].
        eapply Forall_impl; [| exact Hall].
        unfold ID_lt; intros; lia.
Qed.

Lemma sortExitEvents_sorted (l : list ExitEvent) :
  NoDup (map ExitEvent_ID l) -> StronglySorted ID_lt (sortExitEvents l).
Proof.
  induction l as [| e l IH]; simpl; intros Hnd.
  - constructor.
  - inversion Hnd as [| ? ? Hnin Hnd']; subst.
    apply insertByID_sorted; [now apply IH |].
    intros Hin. apply Hnin.
    eapply Permutation_in; [| exact Hin].
    apply Permutation_map, sortExitEvents_perm.
Qed.

(** Two strictly sorted slices with the same elements are equal. *)
Lemma sorted_perm_eq (l1 : list ExitEvent) :
  forall l2,
    StronglySorted ID_lt l1 -> StronglySorted ID_lt l2 ->
    Permutation l1 l2 -> l1 = l2.
Proof.
  induction l1 as [| a l1 IH]; intros l2 H1 H2 Hp.
  - apply Permutation_nil in Hp. now subst.
  - destruct l2 as [| b l2].
    + apply Permutation_sym, Permutation_nil in Hp. discriminate.
    + apply StronglySorted_inv in H1. destruct H1 as [H1 Ha].
      apply StronglySorted_inv in H2. destruct H2 as [H2 Hb].
      assert (Hab : a = b).
      { assert (Hina : In a (b :: l2))
          by (eapply Permutation_in; [exact Hp | now left]).
        assert (Hinb : In b (a :: l1))
          by (eapply Permutation_in; [apply Permutation_sym; exact Hp | now left]).
        destruct Hina as [-> | Hina]; [reflexivity |].
        destruct Hinb as [-> | Hinb]; [reflexivity |].
        rewrite Forall_forall in Ha, Hb.
        specialize (Ha _ Hinb). specialize (Hb _ Hina).
        unfold ID_lt in *. lia. }
      subst b. f_equal. apply IH; try assumption.
      eapply Permutation_cons_inv; exact Hp.
Qed.

Lemma sorted_le_lt (l : list ExitEvent) :
  NoDup (map ExitEvent_ID l) -> StronglySorted ID_le l -> StronglySorted ID_lt l.
Proof.
  induction l as [| a l IH]; intros Hnd Hs.
  - constructor.
  - inversion Hnd as [| ? ? Hnin Hnd']; subst.
    apply StronglySorted_inv in Hs. destruct Hs as [Hs Hall].
    constructor; [now apply IH |].
    rewrite Forall_forall in *. intros x Hx.
    specialize (Hall _ Hx). unfold ID_le, ID_lt in *.
    assert (ExitEvent_ID a <> ExitEvent_ID x).
    { intros Heq. apply Hnin. rewrite Heq. now apply in_map. }
    lia.
Qed.

(** On events of pairwise distinct IDs every algorithm that meets the
    contract of [sort.Slice] (the result holds the same elements, and no
    element is less than one before it) returns what [sortExitEvents]
    returns. *)
Lemma sortExitEvents_unique (l l' : list ExitEvent) :
  NoDup (map ExitEvent_ID l) ->
  Permutation l' l ->
  StronglySorted ID_le l' ->
  l' = sortExitEvents l.
Proof.
  intros Hnd Hp Hs. apply sorted_perm_eq.
  - apply sorted_le_lt; [| assumption].
    eapply Permutation_NoDup; [| exact Hnd].
    apply Permutation_map, Permutation_sym, Hp.
  - now apply sortExitEvents_sorted.
  - eapply perm_trans; [exact Hp | apply Permutation_sym, sortExitEvents_perm].
Qed.




End Sorting.

(** ** The exit event store as the specification describes it *)

Section SpecModelledStore.
Context {codec : Codec}.






End SpecModelledStore.

(** C9 at a store without events. *)
Lemma BuildEventRoot_empty_epoch_witness :
  BuildEventRoot 7 (Scenario.machine Scenario.emptyWorld)
  = (logged (Scenario.machine Scenario.emptyWorld) Scenario.emptyWorld
       (OpGetExitEventsByEpoch 7) None,
     Ok types.ZeroHash).
Proof.
  apply (proj1 (BuildEventRoot_empty_epoch 7 (Scenario.machine Scenario.emptyWorld))).
  reflexivity.
Defined.


(** C5 at pending IDs 1, 2 and 3 where the block of ID 2 has no
    checkpoint yet. *)
Lemma GenerateSlashExitProofs_best_effort_witness :
  exists m' proofs,
    GenerateSlashExitProofs (Scenario.machine Scenario.threeExits) = (m', Ok proofs)
    /\ collected [1; 2; 3]
         (logged (Scenario.machine Scenario.threeExits) Scenario.threeExits
            OpGetPendingSlashExitIDs None)
         m' proofs.
Proof.
  apply (proj1 (GenerateSlashExitProofs_best_effort
                  (Scenario.machine Scenario.threeExits))).
  reflexivity.
Defined.

(** The run of the example: the proofs returned are those of IDs 1 and
    3, and the error is nil. *)
Example GenerateSlashExitProofs_skips_ID_2 :
  match GenerateSlashExitProofs (Scenario.machine Scenario.threeExits) with
  | (_, Ok proofs) => Scenario.provenExitIDs proofs = [1; 3]
  | _ => False
  end.
Proof. vm_compute. reflexivity. Qed.


(** The run of that example: the events are inserted, the watermark
    write fails, [PostBlock] returns its error, and neither the removal
    of slashed exits nor a submission follows. *)
Example PostBlock_watermark_write_fails :
  PostBlock Scenario.request8 (Scenario.machine Scenario.watermarkFails)
  = (mkMachine Scenario.node []
       [(OpGetLastSaved, None);
        (OpGetFromBlocks 7 (ReqFullBlock Scenario.request8), None);
        (OpInsertExitEvents [Scenario.exitEvent 4 2 8], None);
        (OpUpdateLastSaved 8, Some "bolt: write failed")]
       (InMemory.with_exitEvents Scenario.watermarkFails [Scenario.exitEvent 4 2 8]),
     Err "bolt: write failed").
Proof. reflexivity. Qed.

(** C8 as stated fails: the node mined the epoch-ending block 8, so the
    checkpoint is due, but the store cannot be read and [PostBlock]
    returns before it starts the submission. *)
Lemma PostBlock_due_block_not_launched :
  ~ (goroutines (fst (PostBlock Scenario.request8 (Scenario.machine Scenario.storeDown)))
     = (goroutines (Scenario.machine Scenario.storeDown)
          ++ [mkGoroutine Scenario.block8 true 2])%list
     <-> ethgo.KeyAddress (key Scenario.node) = types.Miner Scenario.block8
         /\ (IsEpochEndingBlock Scenario.request8 = true
             \/ types.Number Scenario.block8
                = U64.add (lastSentBlock Scenario.node)
                    (CheckpointInterval Scenario.request8))).
Proof.
  intros [_ H].
  assert (Hl : goroutines
                 (fst (PostBlock Scenario.request8 (Scenario.machine Scenario.storeDown)))
               = ([] ++ [mkGoroutine Scenario.block8 true 2])%list).
  { apply H. split; [reflexivity | left; reflexivity]. }
  vm_compute in Hl. discriminate Hl.
Qed.

(** C8, amended, at a healthy store: the submission is started. *)
Lemma PostBlock_launch_iff_witness :
  lastSentBlock
    (cm (fst (PostBlock Scenario.request8 (Scenario.machine Scenario.healthy))))
  = 8
  /\ snd (PostBlock Scenario.request8 (Scenario.machine Scenario.healthy)) = Ok tt.
Proof.
  destruct (PostBlock_launch_iff Scenario.request8
              (Scenario.machine Scenario.healthy)
              (fst (PostBlock Scenario.request8 (Scenario.machine Scenario.healthy)))
              (snd (PostBlock Scenario.request8 (Scenario.machine Scenario.healthy)))
              (surjective_pairing _))
    as [_ [Hl _]].
  destruct (Hl eq_refl) as [Hlast [_ [_ Hr]]].
  split; [exact Hlast | exact Hr].
Defined.

(** C6 at an exit log in the epoch-ending block 8 of epoch 2: the event
    belongs to epoch 3 and block 9. *)
Lemma parseEvent_attribution_witness :
  parseEvent Scenario.block8 Scenario.exitLog
  = Some (EvExit (mkExitEvent (contractsapi.mkL2StateSyncedEvent 4 [x2a]) 3 9),
          true, None).
Proof.
  refine (proj1 (proj1 (parseEvent_attribution Scenario.block8 Scenario.exitLog []
                          (Extra.mk (Some []) (Extra.mkSignature [] [])
                             (Extra.mkCheckpointData 0 2 [] []))
                          (contractsapi.mkL2StateSyncedEvent 4 [x2a]) _ _ _)
                   [] _));
    reflexivity.
Defined.

(** In the middle of the epoch the event keeps the header's epoch and
    number. *)
Example parseEvent_mid_epoch :
  parseEvent Scenario.block7 Scenario.exitLog
  = Some (EvExit (mkExitEvent (contractsapi.mkL2StateSyncedEvent 4 [x2a]) 2 7),
          true, None).
Proof. reflexivity. Qed.

(** ** The scenarios of the specification on the in-memory collaborators *)

(** No operation changes the chain, the validator sets, the root
    chain's cursor or its receipts. *)
Lemma reachable_static (w0 w : InMemory.World) :
  reachable w0 w ->
  InMemory.headers w = InMemory.headers w0
  /\ InMemory.validators w = InMemory.validators w0
  /\ InMemory.currentCheckpointBlockNumber w = InMemory.currentCheckpointBlockNumber w0
  /\ InMemory.receiptOf w = InMemory.receiptOf w0.
Proof.
  induction 1 as [| w o _ IH]; [repeat split |].
  destruct o; cbn;
    unfold InMemory.sendTransaction, InMemory.store_updateLast,
      InMemory.store_insert, InMemory.store_removeSlash, InMemory.writing;
    destruct_matches; exact IH.
Qed.

Lemma chainHeader_served (n : Z) (w : InMemory.World) :
  11 <= n <= 40 ->
  reachable Scenario.catchUpWorld w ->
  exists w', GetHeaderByNumber n w = (w', Some (Scenario.chainHeader n)).
Proof.
  intros Hn Hr. destruct (reachable_static _ _ Hr) as [Hh _].
  exists w. cbn. rewrite Hh. cbn.
  replace (1 <=? n) with true by (symmetry; apply Z.leb_le; lia).
  replace (n <=? 40) with true by (symmetry; apply Z.leb_le; lia).
  reflexivity.
Qed.

Lemma chainEpoch (n lo hi : Z) (b : byte) :
  Scenario.epochByte lo = b -> Scenario.epochByte hi = b -> lo <= n <= hi ->
  Extra.EpochNumber (Extra.Checkpoint (Scenario.chainExtra n)) = InMemory.byte_to_Z b.
Proof.
  unfold Scenario.chainExtra, Scenario.epochByte; cbn. intros Hlo Hhi Hn.
  destruct (lo <=? 15) eqn:?, (lo <=? 25) eqn:?, (hi <=? 15) eqn:?,
    (hi <=? 25) eqn:?, (n <=? 15) eqn:?, (n <=? 25) eqn:?;
    subst; try discriminate; try reflexivity; lia.
Qed.

(** C1 on the chain of forty blocks. *)
Lemma submitCheckpoint_catch_up_witness :
  exists m' t,
    submitCheckpoint 29 (Scenario.chainHeader 40) true
      (Scenario.machine Scenario.catchUpWorld) = (m', Ok tt)
    /\ trace m' = ([] ++ t)%list
    /\ sentTransactions t
       = [ethgo.mkTransaction [x0c] [x01; x0f; x01] ethgo.TransactionDynamicFee;
          ethgo.mkTransaction [x0c] [x02; x19; x01] ethgo.TransactionDynamicFee;
          ethgo.mkTransaction [x0c] [x03; x28; x01] ethgo.TransactionDynamicFee]
    /\ fetchedValidators t = [15; 25; 40].
Proof.
  destruct (@submitCheckpoint_catch_up InMemory.memCodec InMemory.World
              InMemory.memBackend
              (Scenario.machine Scenario.catchUpWorld) 29
              Scenario.chainHeader Scenario.chainExtra Scenario.chainValidators
              (fun _ : Z => (nil : bytes)) (fun _ => (0, 0)) InMemory.submitBytes
              [x01] "10" 1 2 3)
    as [m' [t [Hrun [Ht [Hs [Hv _]]]]]].
  - reflexivity.
  - intros w Hr. destruct (reachable_static _ _ Hr) as [_ [_ [Hc _]]].
    exists w. cbn. unfold InMemory.rootChainCall. rewrite Hc. reflexivity.
  - reflexivity.
  - exact chainHeader_served.
  - reflexivity.
  - reflexivity.
  - intros n Hn. now apply (chainEpoch n 11 15 x01).
  - intros n Hn. now apply (chainEpoch n 16 25 x02).
  - intros n Hn. now apply (chainEpoch n 26 40 x03).
  - discriminate.
  - discriminate.
  - intros n w _ Hr. destruct (reachable_static _ _ Hr) as [_ [Hv _]].
    exists w. cbn. rewrite Hv. reflexivity.
  - reflexivity.
  - reflexivity.
  - reflexivity.
  - intros txn k w Hr. destruct (reachable_static _ _ Hr) as [_ [_ [_ Hrc]]].
    eexists; eexists. cbn. unfold InMemory.sendTransaction. rewrite Hrc. cbn.
    split; [reflexivity | discriminate].
  - apply le_n.
  - exists m', t. repeat split; assumption.
Defined.

(** C10, amended, on the chain of forty blocks, where the chain serves
    the header passed as [latestHeader]. *)
Lemma submitCheckpoint_final_extra_witness :
  exists m1 left extra,
    submitPending 29 (Scenario.chainHeader 40)
      (Scenario.machine Scenario.catchUpWorld) = (m1, Ok left)
    /\ (left = None \/ left = Some extra)
    /\ GetIbftExtra (types.ExtraData (Scenario.chainHeader 40)) = Val extra
    /\ finalExtra (Scenario.chainHeader 40) left m1 = (m1, Ok extra)
    /\ encodeAndSendCheckpoint (Scenario.chainHeader 40) extra true m1
       = (fst (submitCheckpoint 29 (Scenario.chainHeader 40) true
                 (Scenario.machine Scenario.catchUpWorld)),
          Ok tt).
Proof.
  apply (submitCheckpoint_final_extra 29 (Scenario.chainHeader 40) true
           (Scenario.machine Scenario.catchUpWorld)).
  - unfold U64.modulus; cbn; lia.
  - intros w Hr w' h Hh. destruct (reachable_static _ _ Hr) as [Hhd _].
    cbn in Hh. rewrite Hhd in Hh. inversion Hh. reflexivity.
  - vm_compute. reflexivity.
Defined.

(** C10 as stated fails: [submitCheckpoint] is given a header numbered
    40 whose extra data differs from that of the chain's block 40.  The
    run succeeds, and its final submission for the given header is made
    with the extra the loop decoded from the chain's block, which is not
    the one decoded from the given header's own extra data. *)
Lemma submitCheckpoint_stale_header :
  exists m1 m' extra,
    submitPending 29 Scenario.staleHeader (Scenario.machine Scenario.catchUpWorld)
    = (m1, Ok (Some extra))
    /\ submitCheckpoint 29 Scenario.staleHeader true
         (Scenario.machine Scenario.catchUpWorld) = (m', Ok tt)
    /\ encodeAndSendCheckpoint Scenario.staleHeader extra true m1 = (m', Ok tt)
    /\ GetIbftExtra (types.ExtraData Scenario.staleHeader) <> Val extra.
Proof.
  exists (fst (submitPending 29 Scenario.staleHeader
                 (Scenario.machine Scenario.catchUpWorld))),
    (fst (submitCheckpoint 29 Scenario.staleHeader true
            (Scenario.machine Scenario.catchUpWorld))),
    (Scenario.chainExtra 40).
  split; [vm_compute; reflexivity |].
  split; [vm_compute; reflexivity |].
  split; [vm_compute; reflexivity |].
  vm_compute. discriminate.
Qed.


(** The run of that example: in both orders the leaves of epoch 2 are
    the events 4 and 5, in this order, and the roots agree. *)
Example BuildEventRoot_same_leaves :
  InMemory.exitEvents
    (world (fst (PostBlock Scenario.request8 (Scenario.machine Scenario.healthy))))
  = [Scenario.exitEvent 4 2 8; Scenario.exitEvent 5 2 8]
  /\ snd (BuildEventRoot 2
            (fst (PostBlock Scenario.request8 (Scenario.machine Scenario.healthy))))
     = Ok [x04; x05].
Proof. split; reflexivity. Qed.

(** * Further properties of the manager *)

(** ** Runs: confinement, abort on error, termination *)

Section RunLemmas.
Context {W : Type}.

Lemma clean_nil : clean [].
Proof. constructor. Qed.

Lemma clean_app (t1 t2 : list Called) : clean t1 -> clean t2 -> clean (t1 ++ t2).
Proof. unfold clean; intros; apply Forall_app; auto. Qed.

Lemma confined_ret c P {A} (a : A) : confined (W := W) c P (ret a).
Proof.
  intros m m' r Hc H; inversion H; subst.
  repeat split; auto. exists []. rewrite app_nil_r. auto.
Qed.

Lemma confined_fail c P {A} (e : error) : confined (W := W) c P (@fail W A e).
Proof.
  intros m m' r Hc H; inversion H; subst.
  repeat split; auto. exists []. rewrite app_nil_r. auto.
Qed.

Lemma confined_panic c P {A} : confined (W := W) c P (@panic W A).
Proof.
  intros m m' r Hc H; inversion H; subst.
  repeat split; auto. exists []. rewrite app_nil_r. auto.
Qed.

Lemma confined_out_of_fuel c P {A} : confined (W := W) c P (@out_of_fuel W A).
Proof.
  intros m m' r Hc H; inversion H; subst.
  repeat split; auto. exists []. rewrite app_nil_r. auto.
Qed.

Lemma confined_pure c P {A} (g : goret A) : confined (W := W) c P (pure g).
Proof.
  intros m m' r Hc H; unfold pure in H; destruct g; inversion H; subst;
    (repeat split; auto; exists []; rewrite app_nil_r; auto).
Qed.

Lemma confined_bind c P {A B} (comp : M W A) (k : A -> M W B) :
  confined c P comp -> (forall a, confined c P (k a)) -> confined c P (bind comp k).
Proof.
  intros Hc Hk m m' r Hm H. unfold bind in H.
  destruct (comp m) as [m1 r1] eqn:H1.
  destruct (Hc m m1 r1 Hm H1) as [Hc1 [Hg1 [t1 [Ht1 HP1]]]].
  destruct r1 as [a | e | | ].
  - destruct (Hk a m1 m' r Hc1 H) as [Hc2 [Hg2 [t2 [Ht2 HP2]]]].
    repeat split; [assumption | congruence |].
    exists (t1 ++ t2)%list. split; [| now apply Forall_app].
    rewrite Ht2, Ht1, app_assoc. reflexivity.
  - inversion H; subst. repeat split; auto. now exists t1.
  - inversion H; subst. repeat split; auto. now exists t1.
  - inversion H; subst. repeat split; auto. now exists t1.
Qed.

Lemma confined_get_cm c P {B} (k : checkpointManager -> M W B) :
  confined c P (k c) -> confined c P (bind get_cm k).
Proof.
  intros Hk m m' r Hm H. unfold bind, get_cm in H. rewrite Hm in H.
  exact (Hk m m' r Hm H).
Qed.

Lemma confined_wrap_err c P {A} (f : error -> error) (comp : M W A) :
  confined c P comp -> confined c P (wrap_err f comp).
Proof.
  intros Hc m m' r Hm H. unfold wrap_err in H.
  destruct (comp m) as [m1 r1] eqn:H1.
  destruct (Hc m m1 r1 Hm H1) as [Hc1 [Hg1 Ht1]].
  destruct r1; inversion H; subst; auto.
Qed.

Lemma confined_attempt c P {A} (comp : M W A) :
  confined c P comp -> confined c P (attempt comp).
Proof.
  intros Hc m m' r Hm H. unfold attempt in H.
  destruct (comp m) as [m1 r1] eqn:H1.
  destruct (Hc m m1 r1 Hm H1) as [Hc1 [Hg1 Ht1]].
  destruct r1; inversion H; subst; auto.
Qed.

Lemma confined_call_total c (P : Called -> Prop) {A} (o : Op) (op : W -> W * A) :
  P (o, None) -> confined c P (call_total o op).
Proof.
  intros HP m m' r Hm H. unfold call_total in H.
  destruct (op (world m)) as [w1 a]. inversion H; subst; simpl.
  repeat split; auto. exists [(o, None)]. split; auto.
Qed.

Lemma confined_call c (P : Called -> Prop) {A} (o : Op) (op : W -> W * goret A) :
  (forall e, P (o, e)) -> confined c P (call o op).
Proof.
  intros HP m m' r Hm H. unfold call in H.
  destruct (op (world m)) as [w1 [a | e]]; inversion H; subst; simpl;
    (repeat split; auto; eexists; split; [reflexivity | auto]).
Qed.

Lemma abortive_still {A} (comp : M W A) :
  (forall m, fst (comp m) = m) -> abortive comp.
Proof.
  intros Hs m m' r H. exists []. rewrite app_nil_r.
  split; [| left; apply clean_nil].
  specialize (Hs m). rewrite H in Hs. simpl in Hs. now subst.
Qed.

Lemma abortive_bind {A B} (comp : M W A) (k : A -> M W B) :
  abortive comp -> (forall a, abortive (k a)) -> abortive (bind comp k).
Proof.
  intros Hc Hk m m' r H. unfold bind in H.
  destruct (comp m) as [m1 r1] eqn:H1.
  destruct (Hc m m1 r1 H1) as [t1 [Ht1 Hcase1]].
  destruct r1 as [a | e | | ].
  - destruct Hcase1 as [Hclean1 | [t0 [o [e [_ [_ [e' He']]]]]]]; [| discriminate].
    destruct (Hk a m1 m' r H) as [t2 [Ht2 Hcase2]].
    exists (t1 ++ t2)%list. split; [rewrite Ht2, Ht1, app_assoc; reflexivity |].
    destruct Hcase2 as [Hclean2 | [t0 [o [e [Heq [Hclean0 He']]]]]].
    + left. now apply clean_app.
    + right. exists (t1 ++ t0)%list, o, e. repeat split; auto.
      * rewrite Heq, app_assoc. reflexivity.
      * now apply clean_app.
  - inversion H; subst. exists t1. split; [assumption |].
    destruct Hcase1 as [Hclean1 | [t0 [o [e0 [Heq [Hclean0 _]]]]]].
    + now left.
    + right. exists t0, o, e0. repeat split; eauto.
  - inversion H; subst. exists t1. split; [assumption |].
    destruct Hcase1 as [Hclean1 | [t0 [o [e0 [_ [_ [e' He']]]]]]];
      [now left | discriminate].
  - inversion H; subst. exists t1. split; [assumption |].
    destruct Hcase1 as [Hclean1 | [t0 [o [e0 [_ [_ [e' He']]]]]]];
      [now left | discriminate].
Qed.

Lemma abortive_wrap_err {A} (f : error -> error) (comp : M W A) :
  abortive comp -> abortive (wrap_err f comp).
Proof.
  intros Hc m m' r H. unfold wrap_err in H.
  destruct (comp m) as [m1 r1] eqn:H1.
  destruct (Hc m m1 r1 H1) as [t1 [Ht1 Hcase1]].
  destruct r1 as [a | e | | ]; inversion H; subst; exists t1; split; auto.
  destruct Hcase1 as [Hclean1 | [t0 [o [e0 [Heq [Hclean0 _]]]]]].
  - now left.
  - right. exists t0, o, e0. repeat split; eauto.
Qed.

Lemma abortive_call_total {A} (o : Op) (op : W -> W * A) :
  abortive (call_total o op).
Proof.
  intros m m' r H. unfold call_total in H.
  destruct (op (world m)) as [w1 a]. inversion H; subst; simpl.
  exists [(o, None)]. split; [reflexivity |]. left. repeat constructor.
Qed.

Lemma abortive_call {A} (o : Op) (op : W -> W * goret A) :
  abortive (call o op).
Proof.
  intros m m' r H. unfold call in H.
  destruct (op (world m)) as [w1 [a | e]]; inversion H; subst; simpl.
  - exists [(o, None)]. split; [reflexivity |]. left. repeat constructor.
  - exists [(o, Some e)]. split; [reflexivity |]. right.
    exists [], o, e. repeat split; eauto. constructor.
Qed.

Lemma finishes_bind {A B} (comp : M W A) (k : A -> M W B) :
  finishes comp -> (forall a, finishes (k a)) -> finishes (bind comp k).
Proof.
  intros Hc Hk m. unfold bind. specialize (Hc m).
  destruct (comp m) as [m1 [a | e | | ]]; simpl in *;
    try discriminate; try assumption.
  - apply Hk.
  - congruence.
Qed.

Lemma finishes_wrap_err {A} (f : error -> error) (comp : M W A) :
  finishes comp -> finishes (wrap_err f comp).
Proof.
  intros Hc m. unfold wrap_err. specialize (Hc m).
  destruct (comp m) as [m1 [a | e | | ]]; simpl in *;
    try discriminate; assumption.
Qed.

Lemma finishes_call_total {A} (o : Op) (op : W -> W * A) :
  finishes (call_total o op).
Proof. intros m. unfold call_total. destruct (op (world m)). discriminate. Qed.

Lemma finishes_call {A} (o : Op) (op : W -> W * goret A) :
  finishes (call o op).
Proof.
  intros m. unfold call. destruct (op (world m)) as [w1 [a | e]]; discriminate.
Qed.

Lemma finishes_pure {A} (g : goret A) : finishes (W := W) (pure g).
Proof. intros m. unfold pure. destruct g; discriminate. Qed.

End RunLemmas.

Ltac unfold_calls :=
  unfold blockchain_GetHeaderByNumber, consensusBackend_GetValidators,
    rootChainRelayer_Call, rootChainRelayer_SendTransaction,
    store_getLastSaved, store_updateLastSaved, store_insertExitEvents,
    store_removeSlashExitEvents, store_getExitEventsByEpoch,
    store_getExitEventsForProof, store_getExitEvent,
    store_getPendingSlashExitIDs, eventsGetter_getFromBlocks.

Ltac confined_steps :=
  repeat first
    [ apply confined_get_cm
    | apply confined_bind; [| intros ?]
    | apply confined_wrap_err
    | apply confined_pure
    | apply confined_ret
    | apply confined_fail
    | apply confined_panic
    | apply confined_out_of_fuel
    | apply confined_call; intros; simpl; now auto
    | apply confined_call_total; simpl; now auto
    | match goal with
      | IH : forall _, _ |- _ => apply IH
      | |- confined _ _ (if ?b then _ else _) => destruct b
      | |- confined _ _ (match ?x with _ => _ end) => destruct x
      end ].

Ltac abortive_steps :=
  repeat first
    [ apply abortive_bind; [| intros ?]
    | apply abortive_wrap_err
    | apply abortive_call
    | apply abortive_call_total
    | apply abortive_still; intros; unfold pure; reflexivity
    | match goal with
      | IH : forall _, _ |- _ => apply IH
      | |- abortive (pure ?g) =>
          apply abortive_still; intros; unfold pure; destruct g; reflexivity
      | |- abortive (if ?b then _ else _) => destruct b
      | |- abortive (match ?x with _ => _ end) => destruct x
      end ].

(** ** Checkpoint submission *)

Section Submission.
Context {codec : Codec} {W : Type} {backend : Backend W}.

Lemma confined_encodeAndSendCheckpoint (c : checkpointManager)
    (header : types.Header) (extra : Extra.t) (isEndOfEpoch : bool) :
  confined c (rootChainOp c) (encodeAndSendCheckpoint header extra isEndOfEpoch).
Proof. unfold encodeAndSendCheckpoint. unfold_calls. confined_steps. Qed.

Lemma confined_getLatestCheckpointBlock (c : checkpointManager) :
  confined c (rootChainOp c) getLatestCheckpointBlock.
Proof. unfold getLatestCheckpointBlock. unfold_calls. confined_steps. Qed.

Lemma confined_initialParent (c : checkpointManager) (latestHeader : types.Header)
    (n : Z) :
  confined c (rootChainOp c) (initialParent latestHeader n).
Proof. unfold initialParent. unfold_calls. confined_steps. Qed.

Lemma confined_catchUp (c : checkpointManager) (latestHeader : types.Header)
    (fuel : nat) :
  forall (blockNumber : Z) (parentHeader : option types.Header)
         (parentExtra currentExtra : option Extra.t),
    confined c (rootChainOp c)
      (catchUp fuel latestHeader blockNumber parentHeader parentExtra currentExtra).
Proof.
  induction fuel as [| fuel IH]; intros; rewrite catchUp_unfold;
    destruct (blockNumber <=? types.Number latestHeader);
    try apply confined_ret; try apply confined_out_of_fuel.
  pose proof (confined_encodeAndSendCheckpoint c) as Hsend.
  unfold_calls. confined_steps.
Qed.

Lemma confined_submitCheckpoint (c : checkpointManager) (fuel : nat)
    (latestHeader : types.Header) (isEndOfEpoch : bool) :
  confined c (rootChainOp c) (submitCheckpoint fuel latestHeader isEndOfEpoch).
Proof.
  unfold submitCheckpoint, submitPending, finalExtra.
  pose proof (confined_encodeAndSendCheckpoint c) as Hsend.
  pose proof (confined_getLatestCheckpointBlock c) as Hlatest.
  pose proof (confined_initialParent c) as Hparent.
  pose proof (confined_catchUp c latestHeader fuel) as Hloop.
  apply confined_bind; [| intros left].
  - apply confined_bind; [exact Hlatest | intros last].
    apply confined_bind; [apply Hparent | intros parent]. apply Hloop.
  - apply confined_bind; [| intros extra; apply Hsend].
    destruct left; [apply confined_ret | apply confined_pure].
Qed.

(** X1: checkpoint submission touches nothing but the chain and the
    root chain.  It leaves the manager (so [lastSentBlock]) and the
    goroutines as they are, and every call it makes is a header lookup, a
    validator-set read, a root-chain call from the node's address to the
    CheckpointManager contract, or a dynamic-fee transaction to that
    contract under the node's key; it never calls the exit event store. *)
Theorem submitCheckpoint_confined
    (fuel : nat) (latestHeader : types.Header) (isEndOfEpoch : bool)
    (m : Machine W) :
  cm (fst (submitCheckpoint fuel latestHeader isEndOfEpoch m)) = cm m
  /\ goroutines (fst (submitCheckpoint fuel latestHeader isEndOfEpoch m))
     = goroutines m
  /\ exists t,
       trace (fst (submitCheckpoint fuel latestHeader isEndOfEpoch m))
       = (trace m ++ t)%list
       /\ Forall (rootChainOp (cm m)) t.
Proof.
  destruct (submitCheckpoint fuel latestHeader isEndOfEpoch m) as [m' r] eqn:Hrun.
  exact (confined_submitCheckpoint (cm m) fuel latestHeader isEndOfEpoch
           m m' r eq_refl Hrun).
Qed.

Lemma abortive_encodeAndSendCheckpoint (header : types.Header) (extra : Extra.t)
    (isEndOfEpoch : bool) :
  abortive (encodeAndSendCheckpoint header extra isEndOfEpoch).
Proof. unfold encodeAndSendCheckpoint, get_cm. unfold_calls. abortive_steps. Qed.

Lemma abortive_catchUp (latestHeader : types.Header) (fuel : nat) :
  forall (blockNumber : Z) (parentHeader : option types.Header)
         (parentExtra currentExtra : option Extra.t),
    abortive
      (catchUp fuel latestHeader blockNumber parentHeader parentExtra currentExtra).
Proof.
  induction fuel as [| fuel IH]; intros; rewrite catchUp_unfold;
    destruct (blockNumber <=? types.Number latestHeader);
    try (apply abortive_still; reflexivity).
  pose proof abortive_encodeAndSendCheckpoint as Hsend.
  unfold_calls. abortive_steps.
Qed.

Lemma abortive_submitCheckpoint (fuel : nat) (latestHeader : types.Header)
    (isEndOfEpoch : bool) :
  abortive (submitCheckpoint fuel latestHeader isEndOfEpoch).
Proof.
  unfold submitCheckpoint, submitPending, finalExtra, getLatestCheckpointBlock,
    initialParent, get_cm.
  pose proof abortive_encodeAndSendCheckpoint as Hsend.
  pose proof (abortive_catchUp latestHeader fuel) as Hloop.
  unfold_calls. abortive_steps.
Qed.

(** X2: checkpoint submission aborts at the first failure.  In every
    run, either no call returned an error, or the call that did is the
    last call made and [submitCheckpoint] returns an error: after a
    failed header lookup, validator read, root-chain call or send, no
    further checkpoint is sent. *)
Theorem submitCheckpoint_aborts_on_error
    (fuel : nat) (latestHeader : types.Header) (isEndOfEpoch : bool)
    (m : Machine W) :
  exists t,
    trace (fst (submitCheckpoint fuel latestHeader isEndOfEpoch m))
    = (trace m ++ t)%list
    /\ (clean t
        \/ exists t0 o e,
             t = (t0 ++ [(o, Some e)])%list
             /\ clean t0
             /\ exists e',
                  snd (submitCheckpoint fuel latestHeader isEndOfEpoch m) = Err e').
Proof.
  destruct (submitCheckpoint fuel latestHeader isEndOfEpoch m) as [m' r] eqn:Hrun.
  exact (abortive_submitCheckpoint fuel latestHeader isEndOfEpoch m m' r Hrun).
Qed.

Lemma finishes_encodeAndSendCheckpoint (header : types.Header) (extra : Extra.t)
    (isEndOfEpoch : bool) :
  finishes (encodeAndSendCheckpoint header extra isEndOfEpoch).
Proof.
  unfold encodeAndSendCheckpoint. unfold_calls.
  apply finishes_bind; [intros m; discriminate | intros c].
  apply finishes_bind;
    [destruct isEndOfEpoch; [apply finishes_call | intros m; discriminate] | intros v].
  apply finishes_bind; [apply finishes_wrap_err, finishes_pure | intros input].
  apply finishes_bind; [apply finishes_call | intros receipt].
  destruct (ethgo.Status receipt =? ReceiptFailed); intros m; discriminate.
Qed.

(** The loop runs at most once per block number from [blockNumber] to
    [latestHeader.Number]. *)
Lemma finishes_catchUp (latestHeader : types.Header) :
  types.Number latestHeader < U64.max ->
  forall (fuel : nat) (blockNumber : Z) (parentHeader : option types.Header)
         (parentExtra currentExtra : option Extra.t),
    0 <= blockNumber ->
    (Z.to_nat (types.Number latestHeader + 1 - blockNumber) <= fuel)%nat ->
    finishes
      (catchUp fuel latestHeader blockNumber parentHeader parentExtra currentExtra).
Proof.
  intros Hmax. induction fuel as [| fuel IH]; intros b ph pe ce Hb Hfuel;
    rewrite catchUp_unfold;
    destruct (b <=? types.Number latestHeader) eqn:Hle;
    try (intros m; discriminate).
  - apply Z.leb_le in Hle. lia.
  - apply Z.leb_le in Hle.
    assert (Hnext : forall h x,
               finishes (catchUp fuel latestHeader (U64.incr b)
                           (Some h) (Some x) (Some x))).
    { intros h x.
      rewrite (incr_below b (types.Number latestHeader + 1)); try lia.
      - apply IH; lia.
      - unfold U64.max in Hmax. lia. }
    unfold_calls.
    apply finishes_bind; [apply finishes_call_total | intros [h |]];
      [| intros m; discriminate].
    apply finishes_bind; [apply finishes_pure | intros x].
    destruct pe as [pe |]; [| intros m; discriminate].
    destruct ((b =? 1) || _); [apply Hnext |].
    destruct ph as [ph |]; [| intros m; discriminate].
    apply finishes_bind; [apply finishes_encodeAndSendCheckpoint | intros _].
    apply Hnext.
Qed.

(** X3: checkpoint submission terminates.  For a latest header below
    the largest block number, one unit of fuel per block number up to
    [latestHeader.Number] is enough: the run ends in a result, an error
    or a panic, and is never cut off. *)
Theorem submitCheckpoint_terminates
    (fuel : nat) (latestHeader : types.Header) (isEndOfEpoch : bool)
    (m : Machine W) :
  0 <= types.Number latestHeader < U64.max ->
  (Z.to_nat (types.Number latestHeader + 1) <= fuel)%nat ->
  snd (submitCheckpoint fuel latestHeader isEndOfEpoch m) <> OutOfFuel.
Proof.
  intros Hrange Hfuel. revert m.
  change (finishes (submitCheckpoint fuel latestHeader isEndOfEpoch)).
  unfold submitCheckpoint, submitPending, finalExtra, getLatestCheckpointBlock,
    initialParent.
  unfold_calls.
  apply finishes_bind; [| intros left].
  - apply finishes_bind; [| intros last].
    { apply finishes_bind; [apply finishes_wrap_err, finishes_pure | intros input].
      apply finishes_bind; [intros m; discriminate | intros c].
      apply finishes_bind; [apply finishes_wrap_err, finishes_call | intros raw].
      apply finishes_wrap_err, finishes_pure. }
    apply finishes_bind; [| intros parent].
    { destruct (U64.incr last <? types.Number latestHeader);
        [| intros m; discriminate].
      apply finishes_bind; [apply finishes_call_total | intros [h |]];
        [| intros m; discriminate].
      apply finishes_bind; [apply finishes_pure | intros x; intros m; discriminate]. }
    apply finishes_catchUp; try lia.
    + pose proof (incr_range (U64.incr last)). lia.
    + pose proof (incr_range (U64.incr last)). lia.
  - apply finishes_bind; [| intros extra; apply finishes_encodeAndSendCheckpoint].
    destruct left; [intros m; discriminate | apply finishes_pure].
Qed.

(** At the largest block number the loop condition always holds. *)
Lemma catchUp_never_ok (latestHeader : types.Header) :
  types.Number latestHeader = U64.max ->
  forall (fuel : nat) (blockNumber : Z) (parentHeader : option types.Header)
         (parentExtra currentExtra : option Extra.t) (m : Machine W)
         (left : option Extra.t),
    0 <= blockNumber < U64.modulus ->
    snd (catchUp fuel latestHeader blockNumber parentHeader parentExtra currentExtra m)
    <> Ok left.
Proof.
  intros Hmax. induction fuel as [| fuel IH]; intros b ph pe ce m left Hb;
    rewrite catchUp_unfold, Hmax;
    replace (b <=? U64.max) with true
      by (symmetry; apply Z.leb_le; unfold U64.max; lia);
    [discriminate |].
  unfold_calls. unfold bind at 1, call_total.
  destruct (GetHeaderByNumber b (world m)) as [w1 [h |]]; [| discriminate].
  unfold bind at 1, pure.
  destruct (GetIbftExtra (types.ExtraData h)) as [x | e]; [| discriminate].
  destruct pe as [pe |]; [| discriminate].
  destruct ((b =? 1) || _).
  - apply IH, incr_range.
  - destruct ph as [ph |]; [| discriminate].
    unfold bind at 1.
    destruct (encodeAndSendCheckpoint ph pe true _) as [m2 [[] | e | | ]];
      try discriminate.
    apply IH, incr_range.
Qed.

(** X4: a header numbered [2^64 - 1] cannot be checkpointed.  The loop
    counter wraps around before it exceeds [latestHeader.Number], so no
    run of [submitCheckpoint] on such a header returns nil, whatever the
    fuel: it ends in an error or a panic, or does not end. *)
Theorem submitCheckpoint_last_block_never_succeeds
    (fuel : nat) (latestHeader : types.Header) (isEndOfEpoch : bool)
    (m : Machine W) :
  types.Number latestHeader = U64.max ->
  snd (submitCheckpoint fuel latestHeader isEndOfEpoch m) <> Ok tt.
Proof.
  intros Hmax. unfold submitCheckpoint, submitPending.
  unfold bind at 1. unfold bind at 1.
  destruct (getLatestCheckpointBlock m) as [m1 [last | e | | ]]; try discriminate.
  unfold bind at 1.
  destruct (initialParent latestHeader (U64.incr last) m1)
    as [m2 [parent | e | | ]]; try discriminate.
  pose proof (catchUp_never_ok latestHeader Hmax fuel (U64.incr (U64.incr last))
                (fst parent) (snd parent) None m2) as Hloop.
  destruct (catchUp fuel latestHeader (U64.incr (U64.incr last))
              (fst parent) (snd parent) None m2) as [m3 [left | e | | ]];
    try discriminate.
  exfalso. apply (Hloop left); [apply incr_range | reflexivity].
Qed.

(** X5: when the root chain's latest checkpoint block is at or beyond
    the block before [latestHeader], [submitCheckpoint] looks up no
    header and needs no fuel: after the root-chain call it decodes
    [latestHeader]'s own extra data and sends the checkpoint of
    [latestHeader], also when the root chain already holds a checkpoint
    for that block or a later one. *)
Theorem submitCheckpoint_caught_up
    (fuel : nat) (latestHeader : types.Header) (isEndOfEpoch : bool)
    (m : Machine W) (input : bytes) (w1 : W) (raw : string) (n : Z) :
  currentCheckpointBlockNum_Encode = Val input ->
  Call (ethgo.KeyAddress (key (cm m))) (checkpointManagerAddr (cm m)) input (world m)
  = (w1, Val raw) ->
  ParseUint raw = Val n ->
  0 <= n < U64.max - 1 ->
  types.Number latestHeader <= n + 1 ->
  submitCheckpoint fuel latestHeader isEndOfEpoch m
  = (extra <- pure (GetIbftExtra (types.ExtraData latestHeader)) ;;
     encodeAndSendCheckpoint latestHeader extra isEndOfEpoch)
      (logged m w1
         (OpCall (ethgo.KeyAddress (key (cm m))) (checkpointManagerAddr (cm m)) input)
         None).
Proof.
  intros Hinput Hcall Hparse Hn Hlatest.
  pose proof (getLatestCheckpointBlock_ok m input w1 raw n Hinput Hcall Hparse) as Hl.
  assert (H1 : U64.incr n = n + 1).
  { unfold U64.incr, U64.add, U64.wrap. apply Z.mod_small.
    unfold U64.max in Hn. lia. }
  assert (H2 : U64.incr (n + 1) = n + 2).
  { unfold U64.incr, U64.add, U64.wrap. replace (n + 1 + 1) with (n + 2) by lia.
    apply Z.mod_small. unfold U64.max in Hn. lia. }
  unfold submitCheckpoint, submitPending.
  rewrite bind_assoc. rewrite (bind_ok _ _ _ _ _ Hl).
  rewrite H1. unfold initialParent.
  replace (n + 1 <? types.Number latestHeader) with false
    by (symmetry; apply Z.ltb_ge; lia).
  rewrite bind_assoc, bind_ret_l. simpl fst. simpl snd.
  rewrite H2, catchUp_unfold.
  replace (n + 2 <=? types.Number latestHeader) with false
    by (symmetry; apply Z.leb_gt; lia).
  rewrite bind_ret_l. reflexivity.
Qed.

(** X6: a root chain that reports [2^64 - 2] as its latest checkpoint
    block makes [submitCheckpoint] panic.  The initial block number is
    then [2^64 - 1], so no parent context is loaded, the loop counter
    wraps to 0, and once block 0 is found and its extra decoded the nil
    parent extra is dereferenced. *)
Theorem submitCheckpoint_nil_parent_panics
    (fuel : nat) (latestHeader : types.Header) (isEndOfEpoch : bool)
    (m : Machine W) (input : bytes) (w1 w2 : W) (raw : string)
    (genesis : types.Header) (extra : Extra.t) :
  currentCheckpointBlockNum_Encode = Val input ->
  Call (ethgo.KeyAddress (key (cm m))) (checkpointManagerAddr (cm m)) input (world m)
  = (w1, Val raw) ->
  ParseUint raw = Val (U64.max - 1) ->
  0 <= types.Number latestHeader < U64.modulus ->
  GetHeaderByNumber 0 w1 = (w2, Some genesis) ->
  GetIbftExtra (types.ExtraData genesis) = Val extra ->
  submitCheckpoint (S fuel) latestHeader isEndOfEpoch m
  = (logged
       (logged m w1
          (OpCall (ethgo.KeyAddress (key (cm m))) (checkpointManagerAddr (cm m)) input)
          None)
       w2 (OpGetHeaderByNumber 0) None,
     Panic).
Proof.
  intros Hinput Hcall Hparse Hn Hh Hx.
  pose proof (getLatestCheckpointBlock_ok m input w1 raw _ Hinput Hcall Hparse) as Hl.
  unfold submitCheckpoint, submitPending.
  rewrite bind_assoc. rewrite (bind_ok _ _ _ _ _ Hl).
  change (U64.incr (U64.max - 1)) with U64.max.
  unfold initialParent.
  replace (U64.max <? types.Number latestHeader) with false
    by (symmetry; apply Z.ltb_ge; unfold U64.max; lia).
  rewrite bind_assoc, bind_ret_l. simpl fst. simpl snd.
  change (U64.incr U64.max) with 0.
  rewrite catchUp_unfold.
  replace (0 <=? types.Number latestHeader) with true
    by (symmetry; apply Z.leb_le; lia).
  unfold blockchain_GetHeaderByNumber.
  unfold bind, call_total, pure, panic. simpl world. rewrite Hh, Hx.
  reflexivity.
Qed.

(** X7: a receipt with the failed status makes [encodeAndSendCheckpoint]
    return an error that names the block, although the transaction has
    been handed to the relayer; the relayer's call itself is logged
    without error. *)
Theorem encodeAndSendCheckpoint_failed_receipt
    (header : types.Header) (extra : Extra.t) (isEndOfEpoch : bool)
    (m : Machine W) (w0 w1 : W) (validators : validator.AccountSet)
    (input : bytes) (receipt : ethgo.Receipt) :
  (if isEndOfEpoch
   then GetValidators (types.Number header) (world m) = (w0, Val validators)
   else w0 = world m /\ validators = []) ->
  abiEncodeCheckpointBlock (types.Number header) (types.HeaderHash header)
    extra validators = Val input ->
  SendTransaction
    (ethgo.mkTransaction (checkpointManagerAddr (cm m)) input
       ethgo.TransactionDynamicFee)
    (key (cm m)) w0 = (w1, Val receipt) ->
  ethgo.Status receipt = ReceiptFailed ->
  exists t,
    encodeAndSendCheckpoint header extra isEndOfEpoch m
    = (mkMachine (cm m) (goroutines m) (trace m ++ t)%list w1,
       Err ("checkpoint submission transaction failed for block "
              ++ fmt_d (types.Number header)))
    /\ clean t
    /\ sentTransactions t
       = [ethgo.mkTransaction (checkpointManagerAddr (cm m)) input
            ethgo.TransactionDynamicFee].
Proof.
  intros Hvals Henc Hsend Hstatus.
  apply Z.eqb_eq in Hstatus.
  unfold encodeAndSendCheckpoint. unfold_calls. run_step.
  destruct isEndOfEpoch.
  - rewrite Hvals. simpl. rewrite Henc. simpl. rewrite Hsend. simpl.
    rewrite Hstatus.
    eexists. split; [unfold logged; simpl; rewrite <- app_assoc; reflexivity |].
    split; [repeat constructor | reflexivity].
  - destruct Hvals as [-> ->]. simpl. rewrite Henc. simpl. rewrite Hsend. simpl.
    rewrite Hstatus.
    eexists. split; [unfold logged; simpl; reflexivity |].
    split; [repeat constructor | reflexivity].
Qed.

(** X8: [encodeAndSendCheckpoint] returns nil only after exactly one
    transaction: the ABI encoding of the header and extra at hand, sent
    to the contract, answered by a receipt whose status is not the failed
    one.  The payload's validator set is the one read at the header's
    number when the block ends an epoch, and the empty set otherwise, in
    which case the consensus backend is not asked. *)
Theorem encodeAndSendCheckpoint_success
    (header : types.Header) (extra : Extra.t) (isEndOfEpoch : bool)
    (m m' : Machine W) :
  encodeAndSendCheckpoint header extra isEndOfEpoch m = (m', Ok tt) ->
  exists t validators input w0 receipt,
    trace m' = (trace m ++ t)%list
    /\ clean t
    /\ abiEncodeCheckpointBlock (types.Number header) (types.HeaderHash header)
         extra validators = Val input
    /\ sentTransactions t
       = [ethgo.mkTransaction (checkpointManagerAddr (cm m)) input
            ethgo.TransactionDynamicFee]
    /\ SendTransaction
         (ethgo.mkTransaction (checkpointManagerAddr (cm m)) input
            ethgo.TransactionDynamicFee)
         (key (cm m)) w0 = (world m', Val receipt)
    /\ ethgo.Status receipt <> ReceiptFailed
    /\ (if isEndOfEpoch
        then fetchedValidators t = [types.Number header]
             /\ GetValidators (types.Number header) (world m) = (w0, Val validators)
        else fetchedValidators t = [] /\ validators = [] /\ w0 = world m).
Proof.
  unfold encodeAndSendCheckpoint. unfold_calls. run_step.
  destruct isEndOfEpoch.
  - destruct (GetValidators (types.Number header) (world m))
      as [w0 [validators | e]] eqn:Hvals; simpl; [| discriminate].
    destruct (abiEncodeCheckpointBlock (types.Number header)
                (types.HeaderHash header) extra validators)
      as [input | e] eqn:Henc; simpl; [| discriminate].
    destruct (SendTransaction _ (key (cm m)) w0) as [w1 [receipt | e]] eqn:Hsend;
      simpl; [| discriminate].
    destruct (ethgo.Status receipt =? ReceiptFailed) eqn:Hstatus; [discriminate |].
    intros H; inversion H; subst; clear H. apply Z.eqb_neq in Hstatus.
    exists [(OpGetValidators (types.Number header), None);
            (OpSendTransaction
               (ethgo.mkTransaction (checkpointManagerAddr (cm m)) input
                  ethgo.TransactionDynamicFee) (key (cm m)), None)],
      validators, input, w0, receipt.
    simpl. rewrite <- app_assoc. repeat split; auto. repeat constructor.
  - simpl.
    destruct (abiEncodeCheckpointBlock (types.Number header)
                (types.HeaderHash header) extra [])
      as [input | e] eqn:Henc; simpl; [| discriminate].
    destruct (SendTransaction _ (key (cm m)) (world m))
      as [w1 [receipt | e]] eqn:Hsend; simpl; [| discriminate].
    destruct (ethgo.Status receipt =? ReceiptFailed) eqn:Hstatus; [discriminate |].
    intros H; inversion H; subst; clear H. apply Z.eqb_neq in Hstatus.
    exists [(OpSendTransaction
               (ethgo.mkTransaction (checkpointManagerAddr (cm m)) input
                  ethgo.TransactionDynamicFee) (key (cm m)), None)],
      [], input, (world m), receipt.
    simpl. repeat split; auto. repeat constructor.
Qed.

End Submission.

(** ** Exit events on their way to the store *)

Section Extraction.

Lemma insertByID_sorted_le (e : ExitEvent) (l : list ExitEvent) :
  StronglySorted ID_le l -> StronglySorted ID_le (insertByID e l).
Proof.
  induction l as [| x l IH]; simpl; intros Hs.
  - repeat constructor.
  - apply StronglySorted_inv in Hs. destruct Hs as [Hs Hall].
    destruct (ExitEvent_ID x <? ExitEvent_ID e) eqn:Hlt.
    + apply Z.ltb_lt in Hlt. constructor; [now apply IH |].
      eapply Permutation_Forall; [apply Permutation_sym, insertByID_perm |].
      constructor; [unfold ID_le; lia | assumption].
    + apply Z.ltb_ge in Hlt. constructor; [now constructor |].
      constructor; [exact Hlt |].
      eapply Forall_impl; [| exact Hall]. unfold ID_le; intros; lia.
Qed.

Lemma sortExitEvents_sorted_le (l : list ExitEvent) :
  StronglySorted ID_le (sortExitEvents l).
Proof.
  induction l as [| e l IH]; simpl; [constructor | now apply insertByID_sorted_le].
Qed.

Lemma exitEventsOf_In (x : ExitEvent) (events : list EventAbi) :
  In x (exitEventsOf events) <-> In (EvExit x) events.
Proof.
  induction events as [| [e | s | ] events IH]; simpl.
  - tauto.
  - rewrite IH. split; intros [H | H]; auto; left; congruence.
  - rewrite IH. split; [auto | intros [H | H]; [discriminate | auto]].
  - rewrite IH. split; [auto | intros [H | H]; [discriminate | auto]].
Qed.

Lemma slashedEventsOf_In (s : contractsapi.SlashedEvent) (events : list EventAbi) :
  In s (slashedEventsOf events) <-> In (EvSlashed s) events.
Proof.
  induction events as [| [e | s' | ] events IH]; simpl.
  - tauto.
  - rewrite IH. split; [auto | intros [H | H]; [discriminate | auto]].
  - rewrite IH. split; intros [H | H]; auto; left; congruence.
  - rewrite IH. split; [auto | intros [H | H]; [discriminate | auto]].
Qed.

End Extraction.

(** ** The block-finalization hook *)

Section Finalization.
Context {codec : Codec} {W : Type} {backend : Backend W}.

(** X9: [PostBlock] does not undo what it has done.  When the removal
    of slashed exits fails, the exit events of the block range have been
    inserted and the watermark has been advanced to the block; [PostBlock]
    returns the store's error and starts no submission, whether one is
    due or not. *)
Theorem PostBlock_slash_removal_fails
    (req : PostBlockRequest) (m : Machine W) (w1 w2 w3 w4 w5 : W)
    (lastBlock : Z) (events : list EventAbi) (e : error) :
  let block := Block_Number (FullBlock_Block (ReqFullBlock req)) in
  let inserted := sortExitEvents (exitEventsOf events) in
  let ids := map (fun s => BigInt_Uint64 (contractsapi.ExitID s))
               (slashedEventsOf events) in
  getLastSaved (world m) = (w1, Val lastBlock) ->
  getFromBlocks lastBlock (ReqFullBlock req) w1 = (w2, Val events) ->
  insertExitEvents inserted w2 = (w3, None) ->
  updateLastSaved block w3 = (w4, None) ->
  removeSlashExitEvents ids w4 = (w5, Some e) ->
  PostBlock req m
  = (mkMachine (cm m) (goroutines m)
       (trace m
          ++ [(OpGetLastSaved, None);
              (OpGetFromBlocks lastBlock (ReqFullBlock req), None);
              (OpInsertExitEvents inserted, None);
              (OpUpdateLastSaved block, None);
              (OpRemoveSlashExitEvents ids, Some e)])%list
       w5,
     Err e).
Proof.
  intros block inserted ids Hlast Hfrom Hins Hupd Hrem.
  unfold PostBlock, persistBlock. unfold_calls. run_step. simpl.
  rewrite Hlast. simpl. rewrite Hfrom. simpl.
  fold inserted. rewrite Hins. simpl. fold block. rewrite Hupd. simpl.
  fold ids. rewrite Hrem. simpl.
  unfold logged; simpl. repeat rewrite <- app_assoc. reflexivity.
Qed.

(** X10: [lastSentBlock] is the number of the block whose submission
    was started last.  [PostBlock] never changes the node's key or the
    contract address, and if [lastSentBlock] is the block number of the
    last goroutine started (or a default when none was), it still is
    after [PostBlock], whatever the outcome. *)
Theorem PostBlock_lastSentBlock_tracks_launch
    (d : Z) (req : PostBlockRequest) (m : Machine W) :
  key (cm (fst (PostBlock req m))) = key (cm m)
  /\ checkpointManagerAddr (cm (fst (PostBlock req m)))
     = checkpointManagerAddr (cm m)
  /\ (lastSentBlock (cm m) = lastLaunched d (goroutines m) ->
      lastSentBlock (cm (fst (PostBlock req m)))
      = lastLaunched d (goroutines (fst (PostBlock req m)))).
Proof.
  unfold PostBlock, bind.
  destruct (persistBlock req m) as [m1 r1] eqn:Hp.
  destruct (persistBlock_frame _ _ _ _ Hp) as [Hcm Hgo].
  destruct r1 as [[] | e | | ]; simpl;
    try (rewrite Hcm, Hgo; repeat split; auto).
  unfold get_cm.
  destruct (checkpointDue (cm m1) req); simpl.
  - rewrite Hcm. repeat split; auto. intros _.
    unfold lastLaunched, Block_Number. rewrite map_app. simpl.
    rewrite last_last. reflexivity.
  - rewrite Hcm, Hgo. repeat split; auto.
Qed.

(** X11: what [PostBlock] hands to the store.  Once the watermark is
    read and the events are extracted, the third call is the insertion
    of all and only the extracted exit events (each as often as it was
    extracted), in non-decreasing order of ID; events of any other kind
    are not inserted.  If the slashed exits are removed, the IDs removed
    are those of all and only the extracted slashed events, reduced to 64
    bits. *)
Theorem PostBlock_hands_over_sorted_events
    (req : PostBlockRequest) (m : Machine W) (w1 w2 : W)
    (lastBlock : Z) (events : list EventAbi) :
  getLastSaved (world m) = (w1, Val lastBlock) ->
  getFromBlocks lastBlock (ReqFullBlock req) w1 = (w2, Val events) ->
  exists inserted e rest,
    trace (fst (PostBlock req m))
    = (trace m
         ++ [(OpGetLastSaved, None);
             (OpGetFromBlocks lastBlock (ReqFullBlock req), None);
             (OpInsertExitEvents inserted, e)]
         ++ rest)%list
    /\ Permutation inserted (exitEventsOf events)
    /\ StronglySorted ID_le inserted
    /\ (forall x, In x inserted <-> In (EvExit x) events)
    /\ (forall ids e',
           In (OpRemoveSlashExitEvents ids, e') rest ->
           forall id,
             In id ids
             <-> exists s, In (EvSlashed s) events
                           /\ id = U64.wrap (contractsapi.ExitID s)).
Proof.
  intros Hlast Hfrom.
  assert (Hids : forall id,
             In id (map (fun s => BigInt_Uint64 (contractsapi.ExitID s))
                      (slashedEventsOf events))
             <-> exists s, In (EvSlashed s) events
                           /\ id = U64.wrap (contractsapi.ExitID s)).
  { intros id. rewrite in_map_iff. split.
    - intros [s [Hid Hs]]. exists s. rewrite <- slashedEventsOf_In.
      split; [assumption | now symmetry].
    - intros [s [Hs Hid]]. exists s. rewrite slashedEventsOf_In.
      split; [now symmetry | assumption]. }
  assert (Hmem : forall x,
             In x (sortExitEvents (exitEventsOf events)) <-> In (EvExit x) events).
  { intros x. rewrite <- exitEventsOf_In. split; intros H.
    - eapply Permutation_in; [apply sortExitEvents_perm | exact H].
    - eapply Permutation_in; [apply Permutation_sym, sortExitEvents_perm | exact H]. }
  exists (sortExitEvents (exitEventsOf events)).
  unfold PostBlock, persistBlock, launchCheckpoint. unfold_calls. run_step. simpl.
  rewrite Hlast. simpl. rewrite Hfrom. simpl.
  destruct (insertExitEvents (sortExitEvents (exitEventsOf events)) w2)
    as [w3 [e3 |]]; simpl.
  { exists (Some e3), []. split; [trace_eq |].
    repeat split; try apply Hmem; try apply sortExitEvents_perm;
      try apply sortExitEvents_sorted_le; intros; simpl in *; tauto. }
  exists None.
  destruct (updateLastSaved (Block_Number (FullBlock_Block (ReqFullBlock req))) w3)
    as [w4 [e4 |]]; simpl.
  { eexists. split; [trace_eq |].
    repeat split; try apply Hmem; try apply sortExitEvents_perm;
      try apply sortExitEvents_sorted_le;
      intros; simpl in *; finish_in; try discriminate; try tauto. }
  destruct (removeSlashExitEvents _ w4) as [w5 [e5 |]]; simpl.
  { eexists. split; [trace_eq |].
    repeat split; try apply Hmem; try apply sortExitEvents_perm;
      try apply sortExitEvents_sorted_le;
      intros; simpl in *; finish_in; try discriminate; try tauto;
      apply Hids; assumption. }
  destruct (checkpointDue (cm m) req); simpl;
    (eexists; split; [trace_eq |]);
    (repeat split; try apply Hmem; try apply sortExitEvents_perm;
       try apply sortExitEvents_sorted_le;
       intros; simpl in *; finish_in; try discriminate; try tauto;
       apply Hids; assumption).
Qed.

End Finalization.


(** ** Log parsing *)

Section Parsing.
Context {codec : Codec}.

Lemma bytes_Equal_false (a b : bytes) : a <> b -> bytes_Equal a b = false.
Proof.
  unfold bytes_Equal; destruct (bytes_eq_dec a b); [contradiction | reflexivity].
Qed.

(** X12: the header matters to exit logs only.  For a log whose first
    topic is not the exit-event signature, [parseEvent] gives the same
    result on every header: the header's extra data is not decoded, so a
    slashed-event log is parsed also on a header whose extra data is
    malformed. *)
Theorem parseEvent_other_topic_ignores_header
    (h h' : types.Header) (l : ethgo.Log) (topic0 : types.Hash)
    (rest : list types.Hash) :
  ethgo.Topics l = topic0 :: rest ->
  topic0 <> ExitEvent_Sig ->
  parseEvent h l = parseEvent h' l.
Proof.
  intros Htopics Hne. unfold parseEvent.
  rewrite Htopics, (bytes_Equal_false _ _ Hne). reflexivity.
Qed.

(** X13: on a log whose first topic is the exit-event signature,
    [parseEvent] reports a match exactly when it returns no error.  With
    a match it returns an exit event attributed either to the header's
    epoch and number or to their successors; without one it returns no
    event, and the error is that of decoding the header's extra data, with
    its prefix, or that of decoding the log. *)
Theorem parseEvent_exit_log_outcome
    (h : types.Header) (l : ethgo.Log) (rest : list types.Hash)
    (ev : EventAbi) (matched : bool) (err : option error) :
  ethgo.Topics l = ExitEvent_Sig :: rest ->
  parseEvent h l = Some (ev, matched, err) ->
  (matched = true /\ err = None
   /\ exists extra x,
        GetIbftExtra (types.ExtraData h) = Val extra
        /\ L2StateSyncedEvent_ParseLog l = Val (L2StateSyncedEvent x)
        /\ ev = EvExit x
        /\ ((EpochNumber x = Extra.EpochNumber (Extra.Checkpoint extra)
             /\ BlockNumber x = types.Number h)
            \/ (EpochNumber x = U64.incr (Extra.EpochNumber (Extra.Checkpoint extra))
                /\ BlockNumber x = U64.incr (types.Number h))))
  \/ (matched = false /\ ev = EvNone
      /\ ((exists e, GetIbftExtra (types.ExtraData h) = Fail e
                     /\ err = Some ("could not get header extra on exit event parsing. Error: "
                                      ++ e))
          \/ (exists e, L2StateSyncedEvent_ParseLog l = Fail e /\ err = Some e))).
Proof.
  intros Htopics. unfold parseEvent, decodeExitEvent.
  rewrite Htopics, bytes_Equal_refl.
  destruct (GetIbftExtra (types.ExtraData h)) as [extra | e] eqn:Hextra.
  - destruct (L2StateSyncedEvent_ParseLog l) as [x | e] eqn:Hlog;
      intros H; inversion H; subst; clear H.
    + left. split; [reflexivity | split; [reflexivity |]].
      refine (ex_intro _ extra (ex_intro _ (mkExitEvent x _ _) _)).
      split; [reflexivity | split; [reflexivity | split; [reflexivity |]]].
      destruct (Extra.Validators extra); simpl; auto.
    + right. repeat split. right. now exists e.
  - intros H; inversion H; subst; clear H.
    right. repeat split. left. now exists e.
Qed.

(** X14: [parseEvent] panics on a log without topics, whatever the
    header: it indexes the first topic without a check of the length,
    before it reads the header or decodes anything. *)
Theorem parseEvent_no_topic_panics (h : types.Header) (l : ethgo.Log) :
  ethgo.Topics l = [] -> parseEvent h l = None.
Proof. unfold parseEvent. intros ->. reflexivity. Qed.

End Parsing.

(** ** Proof generation *)

Section ProofGeneration.
Context {codec : Codec} {W : Type} {backend : Backend W}.

Ltac call_shape :=
  first
    [ left; eexists; reflexivity
    | right; left; do 2 eexists; reflexivity
    | right; right; do 4 eexists;
      split; [reflexivity | intros ? Hr; try discriminate Hr; reflexivity] ].

(** X15: [GenerateExitProof] reads and never writes.  It leaves the
    manager and the goroutines as they are and makes at most three calls,
    in this order and each only if the one before returned no error: the
    lookup of the exit event, a root-chain call from the zero address to
    the CheckpointManager contract, and the read of the exit events for
    the proof.  It returns a proof only after all three succeeded. *)
Theorem GenerateExitProof_call_order (exitID : Z) (m m' : Machine W)
    (r : result Proof.t) :
  GenerateExitProof exitID m = (m', r) ->
  cm m' = cm m
  /\ goroutines m' = goroutines m
  /\ exists t,
       trace m' = (trace m ++ t)%list
       /\ ((exists e, t = [(OpGetExitEvent exitID, e)])
           \/ (exists input e,
                  t = [(OpGetExitEvent exitID, None);
                       (OpCall ethgo.ZeroAddress (checkpointManagerAddr (cm m)) input, e)])
           \/ (exists input epoch block e,
                  t = [(OpGetExitEvent exitID, None);
                       (OpCall ethgo.ZeroAddress (checkpointManagerAddr (cm m)) input,
                        None);
                       (OpGetExitEventsForProof epoch block, e)]
                  /\ forall proof, r = Ok proof -> e = None))
       /\ (forall proof, r = Ok proof -> List.length t = 3%nat).
Proof.
  unfold GenerateExitProof. unfold_calls. run_step. simpl.
  destruct_matches;
    intros H; inversion H; subst; clear H; simpl;
    (split; [reflexivity | split; [reflexivity |]]);
    (eexists; split; [trace_eq |]);
    (split; [call_shape | intros ? Hr; try discriminate Hr; reflexivity]).
Qed.

Lemma confined_GenerateExitProof (c : checkpointManager) (exitID : Z) :
  confined c (proofOp c) (GenerateExitProof exitID).
Proof. unfold GenerateExitProof. unfold_calls. confined_steps. Qed.

Lemma confined_collectProofs (c : checkpointManager) (ids : list Z) :
  forall proofs, confined c (proofOp c) (collectProofs ids proofs).
Proof.
  induction ids as [| id ids IH]; intros proofs; simpl.
  - apply confined_ret.
  - apply confined_bind;
      [apply confined_attempt, confined_GenerateExitProof | intros [proof | e]];
      apply IH.
Qed.

(** X16: [GenerateSlashExitProofs] reads and never writes.  It leaves
    the manager and the goroutines as they are, and every call it makes
    is a read of the exit event store or a root-chain call from the zero
    address to the contract: it removes no ID from the pending queue and
    sends no transaction, so the same IDs are pending afterwards as far
    as this call is concerned. *)
Theorem GenerateSlashExitProofs_read_only (m : Machine W) :
  cm (fst (GenerateSlashExitProofs m)) = cm m
  /\ goroutines (fst (GenerateSlashExitProofs m)) = goroutines m
  /\ exists t,
       trace (fst (GenerateSlashExitProofs m)) = (trace m ++ t)%list
       /\ Forall (proofOp (cm m)) t.
Proof.
  destruct (GenerateSlashExitProofs m) as [m' r] eqn:Hrun.
  assert (Hc : confined (cm m) (proofOp (cm m)) GenerateSlashExitProofs).
  { unfold GenerateSlashExitProofs. unfold_calls.
    apply confined_bind; [| intros ids; apply confined_collectProofs].
    apply confined_wrap_err, confined_call. intros; exact I. }
  exact (Hc m m' r eq_refl Hrun).
Qed.

(** X17: a reply that does not name a usable checkpoint is reported as
    a missing one.  When the decoded reply has an [isFound] entry that is
    not the boolean [true], or is [true] while the [checkpointBlock]
    entry is absent or not an integer, [GenerateExitProof] returns the
    error "checkpoint block not found for exit ID <id>", the same in all
    these cases, and does not read the store for the proof. *)
Theorem GenerateExitProof_unusable_reply
    (exitID : Z) (m : Machine W) (w1 w2 : W) (exitEvent : ExitEvent)
    (input raw : bytes) (resp : string) (checkpointBlockMap : GoMap) (v : GoValue) :
  getExitEvent exitID (world m) = (w1, Val exitEvent) ->
  GetCheckpointBlock_EncodeAbi (BlockNumber exitEvent) = Val input ->
  Call ethgo.ZeroAddress (checkpointManagerAddr (cm m)) input w1 = (w2, Val resp) ->
  DecodeHex resp = Val raw ->
  GetCheckpointBlockABIResponse_Decode raw = Val (VMap checkpointBlockMap) ->
  map_lookup "isFound" checkpointBlockMap = Some v ->
  (v = VBool true ->
   forall z, map_lookup "checkpointBlock" checkpointBlockMap <> Some (VBigInt z)) ->
  GenerateExitProof exitID m
  = (mkMachine (cm m) (goroutines m)
       (trace m
          ++ [(OpGetExitEvent exitID, None);
              (OpCall ethgo.ZeroAddress (checkpointManagerAddr (cm m)) input, None)])%list
       w2,
     Err ("checkpoint block not found for exit ID " ++ fmt_d exitID)).
Proof.
  intros Hget Henc Hcall Hhex Hdec Hfound Hblock.
  unfold GenerateExitProof. unfold_calls. run_step. simpl.
  rewrite Hget. simpl. rewrite Henc. simpl. rewrite Hcall. simpl.
  rewrite Hhex. simpl. rewrite Hdec. simpl. rewrite Hfound.
  unfold logged; simpl. rewrite <- app_assoc. simpl.
  destruct v as [[] | | | ]; try reflexivity.
  specialize (Hblock eq_refl).
  destruct (map_lookup "checkpointBlock" checkpointBlockMap)
    as [[ | z | | ] | ]; try reflexivity.
  now elim (Hblock z).
Qed.

(** The leaves of the exit tree are the encodings of the events, one
    per event and in the order of the events. *)
Lemma encodeExitEvents_leaves (exitEvents : list ExitEvent) :
  forall data,
    encodeExitEvents exitEvents = Val data ->
    Forall2 (fun ev leaf => L2StateSyncedEvent_Encode (L2StateSyncedEvent ev) = Val leaf)
      exitEvents data.
Proof.
  induction exitEvents as [| ev rest IH]; simpl; intros data H.
  - inversion H. constructor.
  - destruct (L2StateSyncedEvent_Encode (L2StateSyncedEvent ev)) as [b | e] eqn:Hb;
      [| discriminate].
    destruct (encodeExitEvents rest) as [data' | e]; [| discriminate].
    inversion H; subst. constructor; auto.
Qed.

Lemma encodeExitEvents_fails (exitEvents : list ExitEvent) :
  forall e,
    encodeExitEvents exitEvents = Fail e ->
    exists before ev after,
      exitEvents = (before ++ ev :: after)%list
      /\ Forall (fun x => exists leaf,
                     L2StateSyncedEvent_Encode (L2StateSyncedEvent x) = Val leaf)
           before
      /\ L2StateSyncedEvent_Encode (L2StateSyncedEvent ev) = Fail e.
Proof.
  induction exitEvents as [| ev rest IH]; simpl; intros e H.
  - discriminate.
  - destruct (L2StateSyncedEvent_Encode (L2StateSyncedEvent ev)) as [b | e0] eqn:Hb.
    + destruct (encodeExitEvents rest) as [data' | e1]; [discriminate |].
      inversion H; subst.
      destruct (IH e eq_refl) as [before [ev' [after [Heq [Hall Hfail]]]]].
      exists (ev :: before), ev', after. rewrite Heq.
      repeat split; auto. constructor; [now exists b | assumption].
    + inversion H; subst. exists [], ev, rest. repeat split; auto.
Qed.

(** X18: the exit tree has one leaf per event, in the order of the
    events.  [createExitTree] succeeds only with the tree the Merkle
    library builds over the encodings of the events in their order; when
    it fails, either the library refused those leaves, or the error is
    that of the first event whose encoding fails, and the library was not
    asked. *)
Theorem createExitTree_leaves (exitEvents : list ExitEvent) :
  (forall tree,
      createExitTree exitEvents = Val tree ->
      exists data,
        Forall2 (fun ev leaf =>
                   L2StateSyncedEvent_Encode (L2StateSyncedEvent ev) = Val leaf)
          exitEvents data
        /\ NewMerkleTree data = Val tree)
  /\ (forall e,
         createExitTree exitEvents = Fail e ->
         (exists data,
             Forall2 (fun ev leaf =>
                        L2StateSyncedEvent_Encode (L2StateSyncedEvent ev) = Val leaf)
               exitEvents data
             /\ NewMerkleTree data = Fail e)
         \/ (exists before ev after,
                exitEvents = (before ++ ev :: after)%list
                /\ Forall (fun x => exists leaf,
                               L2StateSyncedEvent_Encode (L2StateSyncedEvent x)
                               = Val leaf) before
                /\ L2StateSyncedEvent_Encode (L2StateSyncedEvent ev) = Fail e)).
Proof.
  unfold createExitTree. split.
  - intros tree H.
    destruct (encodeExitEvents exitEvents) as [data | e] eqn:Henc; [| discriminate].
    exists data. split; [now apply encodeExitEvents_leaves | exact H].
  - intros e H.
    destruct (encodeExitEvents exitEvents) as [data | e0] eqn:Henc.
    + left. exists data. split; [now apply encodeExitEvents_leaves | exact H].
    + inversion H; subst. right. now apply encodeExitEvents_fails.
Qed.

(** X19: the root [BuildEventRoot] returns.  A successful call makes
    exactly one call, the read of the epoch's exit events, and returns
    the zero hash when the read is empty, and otherwise the hash of the
    tree built over the encodings of the events in the order the store
    returned them. *)
Theorem BuildEventRoot_root (epoch : Z) (m m' : Machine W) (root : types.Hash) :
  BuildEventRoot epoch m = (m', Ok root) ->
  exists exitEvents,
    getExitEventsByEpoch epoch (world m) = (world m', Val exitEvents)
    /\ trace m' = (trace m ++ [(OpGetExitEventsByEpoch epoch, None)])%list
    /\ ((exitEvents = [] /\ root = types.ZeroHash)
        \/ (exitEvents <> []
            /\ exists data tree,
                 Forall2 (fun ev leaf =>
                            L2StateSyncedEvent_Encode (L2StateSyncedEvent ev) = Val leaf)
                   exitEvents data
                 /\ NewMerkleTree data = Val tree
                 /\ root = MerkleTree_Hash tree)).
Proof.
  unfold BuildEventRoot. unfold_calls. run_step.
  destruct (getExitEventsByEpoch epoch (world m)) as [w1 [exitEvents | e]] eqn:Hread;
    [| discriminate].
  destruct exitEvents as [| ev rest].
  - intros H; inversion H; subst; clear H. exists []. simpl.
    repeat split. now left.
  - destruct (createExitTree (ev :: rest)) as [tree | e] eqn:Htree; [| discriminate].
    intros H; inversion H; subst; clear H. exists (ev :: rest). simpl.
    repeat split. right. split; [discriminate |].
    unfold createExitTree in Htree.
    destruct (encodeExitEvents (ev :: rest)) as [data | e] eqn:Henc;
      [| discriminate].
    exists data, tree. repeat split; [now apply encodeExitEvents_leaves | exact Htree].
Qed.

End ProofGeneration.

(** ** The further properties on the in-memory collaborators *)

(** X3 on the chain of forty blocks. *)
Lemma submitCheckpoint_terminates_witness :
  snd (submitCheckpoint 41 (Scenario.chainHeader 40) true
         (Scenario.machine Scenario.catchUpWorld)) <> OutOfFuel.
Proof.
  apply submitCheckpoint_terminates.
  - split; [vm_compute; discriminate | vm_compute; reflexivity].
  - vm_compute. apply le_n.
Defined.

(** X4 on a header numbered [2^64 - 1]. *)
Lemma submitCheckpoint_last_block_never_succeeds_witness :
  snd (submitCheckpoint 3 Scenario.lastHeader false
         (Scenario.machine Scenario.emptyWorld)) <> Ok tt.
Proof.
  apply submitCheckpoint_last_block_never_succeeds. reflexivity.
Defined.

(** X5 on a root chain that is already at block 40: without fuel, the
    checkpoint of block 40 is sent again. *)
Lemma submitCheckpoint_caught_up_witness :
  submitCheckpoint 0 (Scenario.chainHeader 40) true
    (Scenario.machine Scenario.caughtUp)
  = (extra <- pure (GetIbftExtra (types.ExtraData (Scenario.chainHeader 40))) ;;
     encodeAndSendCheckpoint (Scenario.chainHeader 40) extra true)
      (logged (Scenario.machine Scenario.caughtUp) Scenario.caughtUp
         (OpCall [x0a] [x0c] [x01]) None).
Proof.
  apply (submitCheckpoint_caught_up 0 (Scenario.chainHeader 40) true
           (Scenario.machine Scenario.caughtUp) [x01] Scenario.caughtUp "40" 40).
  - reflexivity.
  - reflexivity.
  - reflexivity.
  - split; [vm_compute; discriminate | vm_compute; reflexivity].
  - vm_compute. discriminate.
Defined.

Example submitCheckpoint_resends_block_40 :
  InMemory.sent
    (world (fst (submitCheckpoint 0 (Scenario.chainHeader 40) true
                   (Scenario.machine Scenario.caughtUp))))
  = [ethgo.mkTransaction [x0c] [x03; x28; x01] ethgo.TransactionDynamicFee].
Proof. vm_compute. reflexivity. Qed.

(** X6 on a root chain that reports [2^64 - 2]. *)
Lemma submitCheckpoint_nil_parent_panics_witness :
  submitCheckpoint 1 (Scenario.chainHeader 40) true
    (Scenario.machine Scenario.wrappedCursor)
  = (logged
       (logged (Scenario.machine Scenario.wrappedCursor) Scenario.wrappedCursor
          (OpCall [x0a] [x0c] [x01]) None)
       Scenario.wrappedCursor (OpGetHeaderByNumber 0) None,
     Panic).
Proof.
  apply (submitCheckpoint_nil_parent_panics 0 (Scenario.chainHeader 40) true
           (Scenario.machine Scenario.wrappedCursor) [x01]
           Scenario.wrappedCursor Scenario.wrappedCursor
           "18446744073709551614" (Scenario.chainHeader 0) (Scenario.chainExtra 0)).
  - reflexivity.
  - reflexivity.
  - vm_compute. reflexivity.
  - split; [vm_compute; discriminate | vm_compute; reflexivity].
  - reflexivity.
  - reflexivity.
Defined.

(** X7 on a root chain on which every transaction fails. *)
Lemma encodeAndSendCheckpoint_failed_receipt_witness :
  exists t,
    encodeAndSendCheckpoint (Scenario.chainHeader 40) (Scenario.chainExtra 40) true
      (Scenario.machine Scenario.rejecting)
    = (mkMachine Scenario.node [] ([] ++ t)%list
         (InMemory.with_sent Scenario.rejecting
            (ethgo.mkTransaction [x0c] [x03; x28; x01] ethgo.TransactionDynamicFee)),
       Err "checkpoint submission transaction failed for block 40")
    /\ clean t
    /\ sentTransactions t
       = [ethgo.mkTransaction [x0c] [x03; x28; x01] ethgo.TransactionDynamicFee].
Proof.
  apply (encodeAndSendCheckpoint_failed_receipt
           (Scenario.chainHeader 40) (Scenario.chainExtra 40) true
           (Scenario.machine Scenario.rejecting) Scenario.rejecting
           (InMemory.with_sent Scenario.rejecting
              (ethgo.mkTransaction [x0c] [x03; x28; x01] ethgo.TransactionDynamicFee))
           (Scenario.chainValidators 40) [x03; x28; x01]
           (ethgo.mkReceipt 0 21000));
    reflexivity.
Defined.

(** X8 on a submission that is not an end-of-epoch one. *)
Lemma encodeAndSendCheckpoint_success_witness :
  exists t validators input w0 receipt,
    trace (fst (encodeAndSendCheckpoint (Scenario.chainHeader 30)
                  (Scenario.chainExtra 30) false
                  (Scenario.machine Scenario.catchUpWorld)))
    = ([] ++ t)%list
    /\ clean t
    /\ abiEncodeCheckpointBlock 30 [x1e] (Scenario.chainExtra 30) validators
       = Val input
    /\ sentTransactions t
       = [ethgo.mkTransaction [x0c] input ethgo.TransactionDynamicFee]
    /\ SendTransaction
         (ethgo.mkTransaction [x0c] input ethgo.TransactionDynamicFee)
         (ethgo.mkKey [x0a]) w0
       = (world (fst (encodeAndSendCheckpoint (Scenario.chainHeader 30)
                        (Scenario.chainExtra 30) false
                        (Scenario.machine Scenario.catchUpWorld))),
          Val receipt)
    /\ ethgo.Status receipt <> ReceiptFailed
    /\ (fetchedValidators t = [] /\ validators = []
        /\ w0 = Scenario.catchUpWorld).
Proof.
  apply (encodeAndSendCheckpoint_success (Scenario.chainHeader 30)
           (Scenario.chainExtra 30) false
           (Scenario.machine Scenario.catchUpWorld)).
  vm_compute. reflexivity.
Defined.

(** X9 on a store whose removal of slashed exits fails: the watermark
    is at block 8 and the exit event is stored, while exit 3 is still
    pending. *)
Lemma PostBlock_slash_removal_fails_witness :
  PostBlock Scenario.request8 (Scenario.machine Scenario.removalFails)
  = (mkMachine Scenario.node []
       ([] ++ [(OpGetLastSaved, None);
               (OpGetFromBlocks 7 (ReqFullBlock Scenario.request8), None);
               (OpInsertExitEvents [Scenario.exitEvent 4 2 8], None);
               (OpUpdateLastSaved 8, None);
               (OpRemoveSlashExitEvents [3], Some "bolt: write failed")])%list
       (InMemory.with_lastSaved
          (InMemory.with_exitEvents Scenario.removalFails [Scenario.exitEvent 4 2 8])
          8),
     Err "bolt: write failed").
Proof.
  apply (PostBlock_slash_removal_fails Scenario.request8
           (Scenario.machine Scenario.removalFails)
           Scenario.removalFails Scenario.removalFails
           (InMemory.with_exitEvents Scenario.removalFails [Scenario.exitEvent 4 2 8])
           (InMemory.with_lastSaved
              (InMemory.with_exitEvents Scenario.removalFails
                 [Scenario.exitEvent 4 2 8]) 8)
           (InMemory.with_lastSaved
              (InMemory.with_exitEvents Scenario.removalFails
                 [Scenario.exitEvent 4 2 8]) 8)
           7 [EvExit (Scenario.exitEvent 4 2 8);
              EvSlashed (contractsapi.mkSlashedEvent 3)]
           "bolt: write failed");
    reflexivity.
Defined.

(** X10 on a node that has started nothing yet and mines block 8. *)
Lemma PostBlock_lastSentBlock_tracks_launch_witness :
  lastSentBlock
    (cm (fst (PostBlock Scenario.request8 (Scenario.machine Scenario.healthy))))
  = lastLaunched 0
      (goroutines (fst (PostBlock Scenario.request8
                          (Scenario.machine Scenario.healthy)))).
Proof.
  apply (proj2 (proj2 (PostBlock_lastSentBlock_tracks_launch 0 Scenario.request8
                         (Scenario.machine Scenario.healthy)))).
  reflexivity.
Defined.

(** X11 on two exit events extracted out of order. *)
Lemma PostBlock_hands_over_sorted_events_witness :
  exists inserted e rest,
    trace (fst (PostBlock Scenario.request8 (Scenario.machine Scenario.healthy)))
    = ([] ++ [(OpGetLastSaved, None);
              (OpGetFromBlocks 7 (ReqFullBlock Scenario.request8), None);
              (OpInsertExitEvents inserted, e)] ++ rest)%list
    /\ Permutation inserted [Scenario.exitEvent 5 2 8; Scenario.exitEvent 4 2 8]
    /\ StronglySorted ID_le inserted.
Proof.
  assert (H1 : getLastSaved (world (Scenario.machine Scenario.healthy))
               = (Scenario.healthy, Val 7)) by reflexivity.
  assert (H2 : getFromBlocks 7 (ReqFullBlock Scenario.request8) Scenario.healthy
               = (Scenario.healthy,
                  Val [EvExit (Scenario.exitEvent 5 2 8);
                       EvExit (Scenario.exitEvent 4 2 8)])) by reflexivity.
  destruct (PostBlock_hands_over_sorted_events Scenario.request8
              (Scenario.machine Scenario.healthy)
              Scenario.healthy Scenario.healthy 7
              [EvExit (Scenario.exitEvent 5 2 8); EvExit (Scenario.exitEvent 4 2 8)]
              H1 H2)
    as [inserted [e [rest [Ht [Hp [Hs _]]]]]].
  exists inserted, e, rest. repeat split; assumption.
Defined.

(** X12 on a slashed-event log: a header with malformed extra data
    gives the same result as a sound one. *)
Lemma parseEvent_other_topic_ignores_header_witness :
  parseEvent Scenario.block8 Scenario.slashedLog
  = parseEvent Scenario.brokenHeader Scenario.slashedLog.
Proof.
  apply (parseEvent_other_topic_ignores_header Scenario.block8
           Scenario.brokenHeader Scenario.slashedLog [x05] []).
  - reflexivity.
  - discriminate.
Defined.

(** X13 on an exit log in block 8. *)
Lemma parseEvent_exit_log_outcome_witness :
  (true = true /\ @None error = None
   /\ exists extra x,
        GetIbftExtra (types.ExtraData Scenario.block8) = Val extra
        /\ L2StateSyncedEvent_ParseLog Scenario.exitLog = Val (L2StateSyncedEvent x)
        /\ EvExit (mkExitEvent (contractsapi.mkL2StateSyncedEvent 4 [x2a]) 3 9)
           = EvExit x
        /\ ((EpochNumber x = Extra.EpochNumber (Extra.Checkpoint extra)
             /\ BlockNumber x = types.Number Scenario.block8)
            \/ (EpochNumber x = U64.incr (Extra.EpochNumber (Extra.Checkpoint extra))
                /\ BlockNumber x = U64.incr (types.Number Scenario.block8))))
  \/ (true = false
      /\ EvExit (mkExitEvent (contractsapi.mkL2StateSyncedEvent 4 [x2a]) 3 9) = EvNone
      /\ ((exists e, GetIbftExtra (types.ExtraData Scenario.block8) = Fail e
                     /\ @None error
                        = Some ("could not get header extra on exit event parsing. Error: "
                                  ++ e))
          \/ (exists e, L2StateSyncedEvent_ParseLog Scenario.exitLog = Fail e
                        /\ @None error = Some e))).
Proof.
  apply (parseEvent_exit_log_outcome Scenario.block8 Scenario.exitLog []);
    reflexivity.
Defined.

(** X14 on a log without topics, under a header whose extra data
    cannot be decoded. *)
Lemma parseEvent_no_topic_panics_witness :
  parseEvent Scenario.brokenHeader Scenario.bareLog = None.
Proof.
  apply (parseEvent_no_topic_panics Scenario.brokenHeader Scenario.bareLog).
  reflexivity.
Defined.

(** X15 on the proof of exit 1. *)
Lemma GenerateExitProof_call_order_witness :
  exists t,
    trace (fst (GenerateExitProof 1 (Scenario.machine Scenario.threeExits)))
    = ([] ++ t)%list
    /\ List.length t = 3%nat.
Proof.
  assert (Hr : snd (GenerateExitProof 1 (Scenario.machine Scenario.threeExits))
               = Ok Scenario.proofOfExit1) by (vm_compute; reflexivity).
  destruct (GenerateExitProof_call_order 1 (Scenario.machine Scenario.threeExits)
              (fst (GenerateExitProof 1 (Scenario.machine Scenario.threeExits)))
              (snd (GenerateExitProof 1 (Scenario.machine Scenario.threeExits)))
              (surjective_pairing _))
    as [_ [_ [t [Ht [_ Hlen]]]]].
  exists t. split; [exact Ht | exact (Hlen Scenario.proofOfExit1 Hr)].
Defined.

(** X17 on a reply that says a checkpoint was found and names no
    block. *)
Lemma GenerateExitProof_unusable_reply_witness :
  @GenerateExitProof Scenario.looseCodec InMemory.World InMemory.memBackend 2
    (Scenario.machine Scenario.vagueReply)
  = (mkMachine Scenario.node []
       ([] ++ [(OpGetExitEvent 2, None);
               (OpCall ethgo.ZeroAddress [x0c] [x02; x02], None)])%list
       Scenario.vagueReply,
     Err "checkpoint block not found for exit ID 2").
Proof.
  apply (@GenerateExitProof_unusable_reply Scenario.looseCodec InMemory.World
           InMemory.memBackend 2 (Scenario.machine Scenario.vagueReply)
           Scenario.vagueReply Scenario.vagueReply (Scenario.exitEvent 2 1 2)
           [x02; x02] [x02] (string_of_list_byte [x02])
           Scenario.foundWithoutBlock (VBool true));
    try reflexivity.
  intros _ z. discriminate.
Defined.

(** X18 on a single exit event. *)
Lemma createExitTree_leaves_witness :
  exists data,
    Forall2 (fun ev leaf =>
               L2StateSyncedEvent_Encode (L2StateSyncedEvent ev) = Val leaf)
      [Scenario.exitEvent 1 1 1] data
    /\ NewMerkleTree data = Val (([[x01]] : list bytes) : @MerkleTree InMemory.memCodec).
Proof.
  apply (proj1 (createExitTree_leaves [Scenario.exitEvent 1 1 1])
           (([[x01]] : list bytes) : @MerkleTree InMemory.memCodec)).
  reflexivity.
Defined.

(** X19 on the three exits of epoch 1. *)
Lemma BuildEventRoot_root_witness :
  exists exitEvents,
    getExitEventsByEpoch 1 (world (Scenario.machine Scenario.threeExits))
    = (Scenario.threeExits, Val exitEvents)
    /\ trace (logged (Scenario.machine Scenario.threeExits) Scenario.threeExits
                (OpGetExitEventsByEpoch 1) None)
       = ([] ++ [(OpGetExitEventsByEpoch 1, None)])%list
    /\ ((exitEvents = [] /\ [x01; x02; x03] = types.ZeroHash)
        \/ (exitEvents <> []
            /\ exists data tree,
                 Forall2 (fun ev leaf =>
                            L2StateSyncedEvent_Encode (L2StateSyncedEvent ev)
                            = Val leaf) exitEvents data
                 /\ NewMerkleTree data = Val tree
                 /\ [x01; x02; x03] = MerkleTree_Hash tree)).
Proof.
  apply (BuildEventRoot_root 1 (Scenario.machine Scenario.threeExits)
           (logged (Scenario.machine Scenario.threeExits) Scenario.threeExits
              (OpGetExitEventsByEpoch 1) None)
           [x01; x02; x03]).
  reflexivity.
Defined.

(** X20 on the proof of exit 1: the root chain names block 5. *)
Lemma GenerateExitProof_tree_witness :
  exists w1 exitEvent input w2 resp raw checkpointBlockMap checkpointBlock
         exitEvents tree e leafIndex,
    getExitEvent 1 (world (Scenario.machine Scenario.threeExits))
    = (w1, Val exitEvent)
    /\ GetCheckpointBlock_EncodeAbi (BlockNumber exitEvent) = Val input
    /\ Call ethgo.ZeroAddress
         (checkpointManagerAddr (cm (Scenario.machine Scenario.threeExits)))
         input w1
       = (w2, Val resp)
    /\ DecodeHex resp = Val raw
    /\ GetCheckpointBlockABIResponse_Decode raw = Val (VMap checkpointBlockMap)
    /\ map_lookup "isFound" checkpointBlockMap = Some (VBool true)
    /\ map_lookup "checkpointBlock" checkpointBlockMap
       = Some (VBigInt checkpointBlock)
    /\ getExitEventsForProof (EpochNumber exitEvent)
         (BigInt_Uint64 checkpointBlock) w2
       = (world (fst (GenerateExitProof 1 (Scenario.machine Scenario.threeExits))),
          Val exitEvents)
    /\ createExitTree exitEvents = Val tree
    /\ L2StateSyncedEvent_Encode (L2StateSyncedEvent exitEvent) = Val e
    /\ MerkleTree_LeafIndex tree e = Val leafIndex
    /\ MerkleTree_GenerateProof tree e = Val (Proof.Data Scenario.proofOfExit1)
    /\ Proof.Metadata Scenario.proofOfExit1
       = [("LeafIndex", Proof.MLeafIndex leafIndex);
          ("ExitEvent", Proof.MExitEvent exitEvent);
          ("CheckpointBlock", Proof.MCheckpointBlock checkpointBlock)].
Proof.
  apply (GenerateExitProof_tree 1 (Scenario.machine Scenario.threeExits)
           (fst (GenerateExitProof 1 (Scenario.machine Scenario.threeExits)))
           Scenario.proofOfExit1).
  vm_compute. reflexivity.
Defined.
